(** * JMAP PARA scripts: folder resolvers and mutation operations

    A shallow embedding of the scripts [jmap_common.py],
    [jmap_archive_folder.py], [jmap_file_email.py] and
    [jmap_create_folder.py], and the properties of their folder search and
    of their create / move / copy requests. *)

From Stdlib Require Import ZArith Ascii String List Lia.
From stdpp Require Import base option list sorting gmap strings pretty.

Open Scope string_scope.
Open Scope list_scope.
Open Scope Z_scope.

(** ** Data model *)

(** A mailbox as [JMAPClient.get_mailboxes] builds it: a dict with the keys
    [id], [name], [role], [sortOrder], [parentId] and four counters. *)
Record mailbox := Mailbox {
  id : string;
  name : string;
  role : option string;
  sortOrder : Z;
  parentId : option string;
  totalEmails : Z;
  unreadEmails : Z;
  totalThreads : Z;
  unreadThreads : Z;
}.

(** The dict a resolver returns: the mailbox it found, with the two keys
    [paraParent] and [paraParentId] added to it. *)
Record found := Found {
  folder : mailbox;
  paraParent : string;
  paraParentId : option string;
}.

(** A Python dict with string keys whose iteration order matters
    ([para_parents.items()]): an association list in insertion order. *)
Definition odict (V : Type) : Type := list (string * V).

(** [k in d] *)
Fixpoint odict_mem {V} (k : string) (d : odict V) : bool :=
  match d with
  | [] => false
  | (k', _) :: d' => if String.eqb k' k then true else odict_mem k d'
  end.

(** [d[k]] for a key that may be missing *)
Fixpoint odict_get {V} (k : string) (d : odict V) : option V :=
  match d with
  | [] => None
  | (k', v) :: d' => if String.eqb k' k then Some v else odict_get k d'
  end.

(** [d[k] = v]: an existing key keeps its position, a new one goes last. *)
Fixpoint odict_set {V} (k : string) (v : V) (d : odict V) : odict V :=
  match d with
  | [] => [(k, v)]
  | (k', v') :: d' =>
      if String.eqb k' k then (k', v) :: d' else (k', v') :: odict_set k v d'
  end.

(** The literal both resolvers start from. *)
Definition para_parents_init : odict (option string) :=
  [("100_projects", None); ("200_areas", None); ("300_resources", None)].

(** One turn of the loop both resolvers run to find the PARA parent folders:
<<
    for mb in all_mailboxes:
        if mb['name'] in para_parents:
            para_parents[mb['name']] = mb['id']
>> *)
Definition note_parent (para_parents : odict (option string)) (mb : mailbox)
    : odict (option string) :=
  if odict_mem (name mb) para_parents
  then odict_set (name mb) (Some (id mb)) para_parents
  else para_parents.

(** The whole loop, from the literal. *)
Definition find_para_parents (all_mailboxes : list mailbox) : odict (option string) :=
  fold_left note_parent all_mailboxes para_parents_init.

(** ** jmap_archive_folder.py *)

Module ArchiveFolder.

(** The inner loop of [find_folder_in_para]: the first mailbox whose
    [parentId] is [para_id] and whose name is [folder_name]. *)
Fixpoint scan_children (folder_name para_name para_id : string)
    (l : list mailbox) : option found :=
  match l with
  | [] => None
  | mb :: l' =>
      if bool_decide (parentId mb = Some para_id) && String.eqb (name mb) folder_name
      then Some (Found mb para_name (Some para_id))
      else scan_children folder_name para_name para_id l'
  end.

(** The outer loop over [para_parents.items()]. *)
Fixpoint scan_parents (all_mailboxes : list mailbox) (folder_name : string)
    (items : odict (option string)) : option found :=
  match items with
  | [] => None
  | (para_name, None) :: items' => scan_parents all_mailboxes folder_name items'
  | (para_name, Some para_id) :: items' =>
      match scan_children folder_name para_name para_id all_mailboxes with
      | Some mb => Some mb
      | None => scan_parents all_mailboxes folder_name items'
      end
  end.

(** [find_folder_in_para(client, folder_name)], on the list that
    [client.get_mailboxes()] returned. *)
Definition find_folder_in_para (all_mailboxes : list mailbox)
    (folder_name : string) : option found :=
  scan_parents all_mailboxes folder_name (find_para_parents all_mailboxes).

End ArchiveFolder.

(** ** jmap_file_email.py: the depth-limited recursive resolver *)

(** The result of a recursive search run with a bound on the nesting of
    calls: [Done r] when it returned [r] within the bound, [Diverge] when the
    bound was reached. A search that is [Diverge] for every bound is one
    whose recursion never ends (the interpreter then raises
    [RecursionError]; its own limit on the stack is not part of the model). *)
Inductive outcome (A : Type) : Type :=
  | Done (r : A)
  | Diverge.
Arguments Done {A} r.
Arguments Diverge {A}.

Module FileEmail.

Section Resolver.
(** The variables [search_descendants] closes over. *)
Variable all_mailboxes : list mailbox.
Variable folder_name : string.
Variable max_depth : option Z.
Variable para_parents : odict (option string).

(** [max_depth is not None and current_depth > max_depth] *)
Definition too_deep (current_depth : Z) : bool :=
  match max_depth with
  | None => false
  | Some d => d <? current_depth
  end.

(** The [for mb in all_mailboxes] loop of [search_descendants], over the
    rest [l] of the list; [recurse] is the recursive call on a child. *)
Fixpoint scan (recurse : mailbox -> outcome (option found))
    (parent_id para_name : string) (l : list mailbox) : outcome (option found) :=
  match l with
  | [] => Done None
  | mb :: l' =>
      if bool_decide (parentId mb = Some parent_id) then
        if String.eqb (name mb) folder_name then
          Done (Some (Found mb para_name (default None (odict_get para_name para_parents))))
        else
          match recurse mb with
          | Done (Some result) => Done (Some result)
          | Done None => scan recurse parent_id para_name l'
          | Diverge => Diverge
          end
      else scan recurse parent_id para_name l'
  end.

(** [search_descendants(parent_id, current_depth, para_name)], with at
    most [fuel] nested calls. *)
Fixpoint search_descendants (fuel : nat) (parent_id : string)
    (current_depth : Z) (para_name : string) : outcome (option found) :=
  match fuel with
  | O => Diverge
  | S fuel' =>
      if too_deep current_depth then Done None
      else
        scan (fun mb => search_descendants fuel' (id mb) (current_depth + 1) para_name)
             parent_id para_name all_mailboxes
  end.

(** The final loop over [para_parents.items()]. *)
Fixpoint search_parents (fuel : nat) (items : odict (option string))
    : outcome (option found) :=
  match items with
  | [] => Done None
  | (para_name, None) :: items' => search_parents fuel items'
  | (para_name, Some para_id) :: items' =>
      match search_descendants fuel para_id 1 para_name with
      | Done (Some result) => Done (Some result)
      | Done None => search_parents fuel items'
      | Diverge => Diverge
      end
  end.
End Resolver.

(** [find_folder_in_para(client, folder_name, max_depth)], on the list that
    [client.get_mailboxes()] returned. *)
Definition find_folder_in_para (fuel : nat) (all_mailboxes : list mailbox)
    (folder_name : string) (max_depth : option Z) : outcome (option found) :=
  let para_parents := find_para_parents all_mailboxes in
  search_parents all_mailboxes folder_name max_depth para_parents fuel para_parents.

End FileEmail.

(** ** The order of visit, as the specification words it

    For each PARA root in the order 100_projects, 200_areas, 300_resources:
    its children in the order of the flat list, each child followed by what
    is under it, down to [max_depth] links below the root. [None] is a
    visit that the bound [fuel] on the depth cuts short. *)
Section Traversal.
Variable all_mailboxes : list mailbox.
Variable max_depth : option Z.

Definition children (parent_id : string) : list mailbox :=
  filter (fun mb => parentId mb = Some parent_id) all_mailboxes.

Fixpoint visit_all (visit : mailbox -> option (list mailbox))
    (l : list mailbox) : option (list mailbox) :=
  match l with
  | [] => Some []
  | c :: l' =>
      match visit c, visit_all visit l' with
      | Some below, Some rest => Some (c :: below ++ rest)
      | _, _ => None
      end
  end.

Fixpoint preorder (fuel : nat) (parent_id : string) (depth : Z)
    : option (list mailbox) :=
  match fuel with
  | O => None
  | S fuel' =>
      if FileEmail.too_deep max_depth depth then Some []
      else visit_all (fun c => preorder fuel' (id c) (depth + 1)) (children parent_id)
  end.

Fixpoint traversal_from (fuel : nat) (para_parents : odict (option string))
    (names : list string) : option (list found) :=
  match names with
  | [] => Some []
  | para_name :: names' =>
      match odict_get para_name para_parents with
      | Some (Some para_id) =>
          match preorder fuel para_id 1, traversal_from fuel para_parents names' with
          | Some below, Some rest =>
              Some (map (fun mb => Found mb para_name (Some para_id)) below ++ rest)
          | _, _ => None
          end
      | _ => traversal_from fuel para_parents names'
      end
  end.

Definition traversal (fuel : nat) : option (list found) :=
  traversal_from fuel (find_para_parents all_mailboxes)
                 ["100_projects"; "200_areas"; "300_resources"].
End Traversal.

(** The same mailbox with another [sortOrder]. *)
Definition with_sortOrder (g : mailbox -> Z) (mb : mailbox) : mailbox :=
  Mailbox (id mb) (name mb) (role mb) (g mb) (parentId mb)
          (totalEmails mb) (unreadEmails mb) (totalThreads mb) (unreadThreads mb).

Definition found_with_sortOrder (g : mailbox -> Z) (f : found) : found :=
  Found (with_sortOrder g (folder f)) (paraParent f) (paraParentId f).

(** ** The remote server, as the scripts see it *)

(** The attributes of a jmapc [Email] that [get_email_info] reads. *)
Record email := Email {
  eid : string;
  subject : option string;
  mail_from : option (list (option string * option string));
  mailbox_ids : option (gmap string bool);
  received_at : option string;
}.

(** The requests the scripts build. [MailboxSet_create] is
    [MailboxSet(create={'new-folder': {'name': .., 'parentId': ..}})],
    [MailboxSet_update] is [MailboxSet(update={folder_id: {'parentId': ..}})],
    [EmailSet_update] is [EmailSet(update={email_id: {'mailboxIds': ..}})]. *)
Inductive request :=
  | MailboxGet
  | MailboxSet_create (name parentId : string)
  | MailboxSet_update (folder_id parentId : string)
  | EmailGet (ids : list string) (properties : list string)
  | EmailSet_update (email_id : string) (mailboxIds : gmap string bool).

(** A [*/set] response, with the four attributes the scripts look at; [None]
    is an attribute that is missing or [None]. A server error is kept as the
    text it prints as. *)
Record set_response := SetResponse {
  created : option (gmap string (option string));
  not_created : option (gmap string string);
  updated : option (gset string);
  not_updated : option (gmap string string);
}.

Inductive response :=
  | MailboxGetResponse (data : list mailbox)
  | EmailGetResponse (data : list email)
  | SetResponseOf (r : set_response)
  | OtherResponse.

(** What [client.client.request(..)] does: return a response or raise. *)
Inductive reply :=
  | Returns (r : response)
  | Raises (e : string).

(** A Python exception leaving a function. *)
Inductive exn :=
  | ValueError (msg : string)
  | SystemExit (code : Z).

(** [JMAPClient]: [client] is [None] until [connect()] has run. *)
Record JMAPClient := {
  host : string;
  api_token : string;
  client : option unit;
}.

Definition not_connected : exn :=
  ValueError "Client not connected. Call connect() first.".

(** Truth value of an optional dict: [hasattr(r, a) and r.a] *)
Definition truthy_map {V} (m : option (gmap string V)) : option (gmap string V) :=
  match m with
  | Some d => if bool_decide (d = ∅) then None else Some d
  | None => None
  end.

Definition truthy_set (m : option (gset string)) : option (gset string) :=
  match m with
  | Some d => if bool_decide (d = ∅) then None else Some d
  | None => None
  end.

(** [hasattr(result, a) and result.a] for the four attributes, on any
    response: the attribute when it is there and true, [None] otherwise. *)
Definition has_not_updated (result : response) : option (gmap string string) :=
  match result with SetResponseOf r => truthy_map (not_updated r) | _ => None end.

Definition has_updated (result : response) : option (gset string) :=
  match result with SetResponseOf r => truthy_set (updated r) | _ => None end.

Definition has_not_created (result : response) : option (gmap string string) :=
  match result with SetResponseOf r => truthy_map (not_created r) | _ => None end.

Definition has_created (result : response) : option (gmap string (option string)) :=
  match result with SetResponseOf r => truthy_map (created r) | _ => None end.

Section Remote.
(** The server: a state and what it answers to a request. *)
Context {S : Type}.
Variable serve : request -> S -> reply * S.

(** The server's state and the requests sent to it so far. *)
Record world := World {
  remote : S;
  sent : list request;
}.

Definition send (rq : request) (w : world) : reply * world :=
  let '(rp, s) := serve rq (remote w) in
  (rp, World s (sent w ++ [rq])).

(** *** jmap_common.py *)

(** [JMAPClient.get_mailboxes] *)
Definition get_mailboxes (self : JMAPClient) (w : world)
    : (exn + list mailbox) * world :=
  match client self with
  | None => (inl not_connected, w)
  | Some _ =>
      match send MailboxGet w with
      | (Returns (MailboxGetResponse data), w') => (inr data, w')
      | (Returns _, w') => (inr [], w')
      | (Raises _, w') => (inl (SystemExit 1), w')
      end
  end.

(** The loop of [get_mailbox_by_name]; [lower] is [str.lower]. *)
Fixpoint first_named (lower : string -> string) (name_lower : string)
    (mailboxes : list mailbox) : option mailbox :=
  match mailboxes with
  | [] => None
  | mailbox :: rest =>
      if String.eqb (lower (name mailbox)) name_lower then Some mailbox
      else first_named lower name_lower rest
  end.

(** [JMAPClient.get_mailbox_by_name] *)
Definition get_mailbox_by_name (lower : string -> string) (self : JMAPClient)
    (name : string) (w : world) : (exn + option mailbox) * world :=
  match get_mailboxes self w with
  | (inl e, w') => (inl e, w')
  | (inr mailboxes, w') => (inr (first_named lower (lower name) mailboxes), w')
  end.

(** *** jmap_archive_folder.py *)

(** What [move_folder_to_archive] does with the response, inside its
    [try]: the value returned or the message of the [ValueError] raised. *)
Definition check_moved (folder_id : string) (result : response) : string + bool :=
  match has_not_updated result with
  | Some nu => inl ("Failed to move folder: " +:+ default "{}" (nu !! folder_id))
  | None =>
      match has_updated result with
      | Some u =>
          if bool_decide (folder_id ∈ u) then inr true
          else inl "Folder move response did not contain expected data"
      | None => inl "Folder move response did not contain expected data"
      end
  end.

(** [move_folder_to_archive(client, folder_id, archive_parent_id)] *)
Definition move_folder_to_archive (c : JMAPClient) (folder_id archive_parent_id : string)
    (w : world) : (exn + bool) * world :=
  match client c with
  | None => (inl not_connected, w)
  | Some _ =>
      let '(rp, w') := send (MailboxSet_update folder_id archive_parent_id) w in
      let checked :=
        match rp with
        | Returns result => check_moved folder_id result
        | Raises e => inl e
        end in
      match checked with
      | inr b => (inr b, w')
      | inl e => (inl (ValueError ("Error moving folder: " +:+ e)), w')
      end
  end.

(** *** jmap_create_folder.py *)

(** The dict [create_folder] returns. *)
Record new_folder := NewFolder {
  new_id : string;
  new_name : string;
  new_parentId : string;
}.

(** What [create_folder] does with the response, inside its [try]. *)
Definition check_created (parent_id folder_name : string) (result : response)
    : string + new_folder :=
  match has_not_created result with
  | Some nc => inl ("Failed to create folder: " +:+ default "{}" (nc !! "new-folder"))
  | None =>
      match has_created result with
      | Some cr =>
          match cr !! "new-folder" with
          | Some (Some created_id) => inr (NewFolder created_id folder_name parent_id)
          | _ => inl "Folder creation response did not contain expected data"
          end
      | None => inl "Folder creation response did not contain expected data"
      end
  end.

(** [create_folder(client, parent_id, folder_name)] *)
Definition create_folder (c : JMAPClient) (parent_id folder_name : string)
    (w : world) : (exn + new_folder) * world :=
  match client c with
  | None => (inl not_connected, w)
  | Some _ =>
      let '(rp, w') := send (MailboxSet_create folder_name parent_id) w in
      let checked :=
        match rp with
        | Returns result => check_created parent_id folder_name result
        | Raises e => inl e
        end in
      match checked with
      | inr f => (inr f, w')
      | inl e => (inl (ValueError ("Error creating folder: " +:+ e)), w')
      end
  end.

(** *** jmap_file_email.py *)

(** The dict [get_email_info] returns. *)
Record email_info := EmailInfo {
  info_id : string;
  info_subject : string;
  info_from : list (string * string);
  info_mailboxIds : option (gmap string bool);
  info_receivedAt : option string;
}.

(** [s or d] for an optional string *)
Definition str_or (s : option string) (d : string) : string :=
  match s with
  | Some "" | None => d
  | Some v => v
  end.

Definition email_properties : list string :=
  ["id"; "subject"; "from"; "mailboxIds"; "receivedAt"].

(** [get_email_info(client, email_id)] *)
Definition get_email_info (c : JMAPClient) (email_id : string) (w : world)
    : (exn + option email_info) * world :=
  match client c with
  | None => (inl not_connected, w)
  | Some _ =>
      let '(rp, w') := send (EmailGet [email_id] email_properties) w in
      match rp with
      | Returns (EmailGetResponse (email :: _)) =>
          let from_addrs :=
            map (fun addr => (str_or (fst addr) "", str_or (snd addr) ""))
                (default [] (mail_from email)) in
          (inr (Some (EmailInfo (eid email)
                                (str_or (subject email) "(No subject)")
                                from_addrs (mailbox_ids email) (received_at email))), w')
      | Returns (MailboxGetResponse (_ :: _)) =>
          (inl (ValueError "Error retrieving email: 'Mailbox' object has no attribute 'subject'"), w')
      | Returns _ => (inr None, w')
      | Raises e => (inl (ValueError ("Error retrieving email: " +:+ e)), w')
      end
  end.

(** What [file_email] does with the response, inside its [try]. *)
Definition check_filed (email_id : string) (result : response) : string + bool :=
  match has_not_updated result with
  | Some nu => inl ("Failed to file email: " +:+ default "{}" (nu !! email_id))
  | None =>
      match has_updated result with
      | Some u =>
          if bool_decide (email_id ∈ u) then inr true
          else inl "Email filing response did not contain expected data"
      | None => inl "Email filing response did not contain expected data"
      end
  end.

(** The second half of [file_email]: the [EmailSet] request with
    [new_mailbox_ids] and the reading of its response. *)
Definition submit_mailbox_ids (email_id : string) (new_mailbox_ids : gmap string bool)
    (w : world) : (exn + bool) * world :=
  let '(rp, w') := send (EmailSet_update email_id new_mailbox_ids) w in
  let checked :=
    match rp with
    | Returns result => check_filed email_id result
    | Raises e => inl e
    end in
  match checked with
  | inr b => (inr b, w')
  | inl e => (inl (ValueError ("Error filing email: " +:+ e)), w')
  end.

(** [file_email(client, email_id, target_mailbox_id, copy)] *)
Definition file_email (c : JMAPClient) (email_id target_mailbox_id : string)
    (copy : bool) (w : world) : (exn + bool) * world :=
  match client c with
  | None => (inl not_connected, w)
  | Some _ =>
      if copy then
        match get_email_info c email_id w with
        | (inl (ValueError m), w1) => (inl (ValueError ("Error filing email: " +:+ m)), w1)
        | (inl (SystemExit k), w1) => (inl (SystemExit k), w1)
        | (inr None, w1) => (inl (ValueError "Error filing email: Email not found"), w1)
        | (inr (Some email_info), w1) =>
            match info_mailboxIds email_info with
            | None =>
                (inl (ValueError "Error filing email: 'NoneType' object has no attribute 'copy'"), w1)
            | Some current =>
                submit_mailbox_ids email_id (<[target_mailbox_id := true]> current) w1
            end
        end
      else
        submit_mailbox_ids email_id {[target_mailbox_id := true]} w
  end.
End Remote.

Arguments World {S} remote sent.
Arguments remote {S} w.
Arguments sent {S} w.

(** ** A reference mail store

    The server is not part of the scripts. For the properties that speak of
    the state an operation leaves behind, this is the account of a JMAP
    server that applies every request: [Mailbox/set] adds a folder, under a
    new id, or changes the parent of one, [Email/set] replaces the
    [mailboxIds] of an email, and the two [get] methods read the state
    back. An update of something that is not there is answered with a
    "not updated" entry. *)
Module Store.

Record store := {
  mailboxes : list mailbox;
  emails : gmap string email;
  next_id : nat;
}.

Definition set_parent (folder_id parent : string) (mb : mailbox) : mailbox :=
  if String.eqb (id mb) folder_id
  then Mailbox (id mb) (name mb) (role mb) (sortOrder mb) (Some parent)
               (totalEmails mb) (unreadEmails mb) (totalThreads mb) (unreadThreads mb)
  else mb.

Definition set_mailbox_ids (m : gmap string bool) (e : email) : email :=
  Email (eid e) (subject e) (mail_from e) (Some m) (received_at e).

Definition serve (rq : request) (s : store) : reply * store :=
  match rq with
  | MailboxGet => (Returns (MailboxGetResponse (mailboxes s)), s)
  | MailboxSet_create n p =>
      let i := "M" +:+ pretty (next_id s) in
      (Returns (SetResponseOf (SetResponse (Some {[ "new-folder" := Some i ]}) None None None)),
       {| mailboxes := mailboxes s ++ [Mailbox i n None 0 (Some p) 0 0 0 0];
          emails := emails s;
          next_id := Datatypes.S (next_id s) |})
  | MailboxSet_update f p =>
      if existsb (fun mb => String.eqb (id mb) f) (mailboxes s) then
        (Returns (SetResponseOf (SetResponse None None (Some {[ f ]}) None)),
         {| mailboxes := map (set_parent f p) (mailboxes s);
            emails := emails s; next_id := next_id s |})
      else
        (Returns (SetResponseOf (SetResponse None None None (Some {[ f := "notFound" ]}))), s)
  | EmailGet ids _ =>
      (Returns (EmailGetResponse (omap (fun i => emails s !! i) ids)), s)
  | EmailSet_update e m =>
      match emails s !! e with
      | Some em =>
          (Returns (SetResponseOf (SetResponse None None (Some {[ e ]}) None)),
           {| mailboxes := mailboxes s;
              emails := <[ e := set_mailbox_ids m em ]> (emails s);
              next_id := next_id s |})
      | None =>
          (Returns (SetResponseOf (SetResponse None None None (Some {[ e := "notFound" ]}))), s)
      end
  end.

End Store.

(** ** Fixtures *)

(** A mailbox with the fields the resolvers read. *)
Definition mk (i n : string) (p : option string) : mailbox :=
  Mailbox i n None 0 p 0 0 0 0.

Definition connected : JMAPClient :=
  {| host := "api.example.com"; api_token := "token"; client := Some () |}.

(** An email whose [mailboxIds] is [m]. *)
Definition email_in (e : string) (m : gmap string bool) : email :=
  Email e (Some "Test Subject") None (Some m) None.

Definition store_with (e : string) (m : gmap string bool) : Store.store :=
  {| Store.mailboxes := []; Store.emails := {[ e := email_in e m ]}; Store.next_id := 0 |}.

(** A server whose answer to every request is the same response. *)
Definition always (r : response) (rq : request) (s : unit) : reply * unit :=
  (Returns r, s).

(** [str.lower] on ASCII text. *)
Definition lower_char (c : ascii) : ascii :=
  let n := nat_of_ascii c in
  if ((65 <=? n) && (n <=? 90))%nat then ascii_of_nat (n + 32) else c.

Fixpoint str_lower (s : string) : string :=
  match s with
  | EmptyString => EmptyString
  | String c s' => String (lower_char c) (str_lower s')
  end.

(** Two folders named 100_projects; the project folder is under the first. *)
Definition two_roots : list mailbox :=
  [mk "r1" "100_projects" None; mk "p" "Project" (Some "r1");
   mk "r2" "100_projects" None].

(** The chain 100_projects / A / B / C of the depth property. *)
Definition chain : list mailbox :=
  [mk "r" "100_projects" None; mk "a" "A" (Some "r");
   mk "b" "B" (Some "a"); mk "c" "C" (Some "b")].

(** The height of each folder of [chain] above its deepest descendant. *)
Definition chain_rank (i : string) : nat :=
  if String.eqb i "r" then 3
  else if String.eqb i "a" then 2
  else if String.eqb i "b" then 1
  else 0.

(** [chain] and, under 200_areas, a second folder named C. *)
Definition chain_and_namesake : list mailbox :=
  chain ++ [mk "s" "200_areas" None; mk "c2" "C" (Some "s")].

(** The nested folders of the archive script's test. *)
Definition nested : list mailbox :=
  [mk "mb_100_projects" "100_projects" None;
   mk "mb_project" "Project" (Some "mb_100_projects");
   mk "mb_deep" "DeepFolder" (Some "mb_project")].

(** A grandchild of 100_projects that has a namesake right under 200_areas. *)
Definition receipts : list mailbox :=
  [mk "r" "100_projects" None; mk "w" "Work" (Some "r");
   mk "g" "Receipts" (Some "w");
   mk "s" "200_areas" None; mk "g2" "Receipts" (Some "s")].

(** The eight folders of the test fixture [sample_mailboxes]. *)
Definition sample_mailboxes : list mailbox :=
  [Mailbox "mb_inbox" "Inbox" (Some "inbox") 10 None 42 5 30 4;
   Mailbox "mb_sent" "Sent Items" (Some "sent") 20 None 100 0 85 0;
   Mailbox "mb_100_projects" "100_projects" None 100 None 0 0 0 0;
   Mailbox "mb_project_1" "2025-Q1_website-redesign" None 10 (Some "mb_100_projects") 15 2 8 1;
   Mailbox "mb_200_areas" "200_areas" None 200 None 0 0 0 0;
   Mailbox "mb_area_1" "Team Management" None 10 (Some "mb_200_areas") 30 5 20 3;
   Mailbox "mb_300_resources" "300_resources" None 300 None 0 0 0 0;
   Mailbox "mb_400_archives" "400_archives" None 400 None 500 0 350 0].

Definition sample_project : found :=
  Found (Mailbox "mb_project_1" "2025-Q1_website-redesign" None 10 (Some "mb_100_projects") 15 2 8 1)
        "100_projects" (Some "mb_100_projects").

Definition sample_area : found :=
  Found (Mailbox "mb_area_1" "Team Management" None 10 (Some "mb_200_areas") 30 5 20 3)
        "200_areas" (Some "mb_200_areas").

(** An account whose only folder is "work", under the folder [q]. *)
Definition store_with_work : Store.store :=
  {| Store.mailboxes := [mk "w1" "work" (Some "q")];
     Store.emails := ∅; Store.next_id := 0 |}.

(** The chain again, with the folder B named 200_areas. *)
Definition chain_through_areas : list mailbox :=
  [mk "r" "100_projects" None; mk "a" "A" (Some "r");
   mk "b" "200_areas" (Some "a"); mk "c" "C" (Some "b")].


(** ** Vocabulary of the properties *)

(** The two failures of [move_folder_to_archive], as it raises them. *)
Definition move_rejected (detail : string) : exn + bool :=
  inl (ValueError ("Error moving folder: " +:+ ("Failed to move folder: " +:+ detail))).

Definition move_unexpected : exn + bool :=
  inl (ValueError "Error moving folder: Folder move response did not contain expected data").

(** The response of the script's own test: the folder id is in "updated"
    and "not updated" is empty. *)
Definition moved_response (f : string) : response :=
  SetResponseOf (SetResponse None None (Some {[ f ]}) (Some ∅)).

(** A response that lists the folder id as updated and another id as not
    updated. *)
Definition mixed_response : response :=
  SetResponseOf (SetResponse None None (Some {[ "folder_id" ]})
                             (Some {[ "other_id" := "{'type': 'forbidden'}" ]})).

Definition para_names : list string := ["100_projects"; "200_areas"; "300_resources"].

(** [descends mbs p k mb]: in the list [mbs], [mb] is [k] parent links below
    the folder whose id is [p]. *)
Inductive descends (mbs : list mailbox) (p : string) : nat -> mailbox -> Prop :=
  | descends_child mb :
      mb ∈ mbs -> parentId mb = Some p -> descends mbs p 1 mb
  | descends_step c k mb :
      c ∈ mbs -> parentId c = Some p -> descends mbs (id c) k mb ->
      descends mbs p (Datatypes.S k) mb.

(** A folder [k] links below a parent searched at [current_depth] is within
    the limit. *)
Definition within (max_depth : option Z) (current_depth : Z) (k : nat) : Prop :=
  match max_depth with
  | None => True
  | Some d => current_depth + Z.of_nat k - 1 <= d
  end.

Definition outcome_map {A B} (h : A -> B) (o : outcome (option A)) : outcome (option B) :=
  match o with
  | Done r => Done (h <$> r)
  | Diverge => Diverge
  end.

(** ** More of jmap_common.py and jmap_file_email.py *)

Section RemoteReads.
Context {S : Type}.
Variable serve : request -> S -> reply * S.

(** The loop of [get_mailbox_by_role]: [mailbox.get('role') == role]. *)
Fixpoint first_with_role (wanted : string) (mailboxes : list mailbox) : option mailbox :=
  match mailboxes with
  | [] => None
  | mailbox :: rest =>
      if bool_decide (role mailbox = Some wanted) then Some mailbox
      else first_with_role wanted rest
  end.

(** [JMAPClient.get_mailbox_by_role] *)
Definition get_mailbox_by_role (self : JMAPClient) (wanted : string) (w : world)
    : (exn + option mailbox) * world :=
  match get_mailboxes serve self w with
  | (inl e, w') => (inl e, w')
  | (inr mailboxes, w') => (inr (first_with_role wanted mailboxes), w')
  end.

(** The loop of [get_mailbox_name], with its fallback on the id. *)
Fixpoint name_of_id (mailbox_id : string) (all_mailboxes : list mailbox) : string :=
  match all_mailboxes with
  | [] => mailbox_id
  | mb :: rest =>
      if String.eqb (id mb) mailbox_id then name mb else name_of_id mailbox_id rest
  end.

(** [get_mailbox_name(client, mailbox_id)] of jmap_file_email.py *)
Definition get_mailbox_name (c : JMAPClient) (mailbox_id : string) (w : world)
    : (exn + string) * world :=
  match get_mailboxes serve c w with
  | (inl e, w') => (inl e, w')
  | (inr all_mailboxes, w') => (inr (name_of_id mailbox_id all_mailboxes), w')
  end.
End RemoteReads.

(** ** jmap_list_folders.py: the grouping of the folders *)

Module ListFolders.

(** [key = parent_id if parent_id else 'root'] *)
Definition tree_key (mb : mailbox) : string :=
  match parentId mb with
  | Some parent_id => if String.eqb parent_id "" then "root" else parent_id
  | None => "root"
  end.

(** One turn of the loop of [build_folder_tree]:
<<
    if key not in children_map:
        children_map[key] = []
    children_map[key].append(mailbox)
>> *)
Definition add_child (children_map : gmap string (list mailbox)) (mb : mailbox)
    : gmap string (list mailbox) :=
  let key := tree_key mb in
  <[ key := default [] (children_map !! key) ++ [mb] ]> children_map.

(** [build_folder_tree(mailboxes)] *)
Definition build_folder_tree (mailboxes : list mailbox) : gmap string (list mailbox) :=
  fold_left add_child mailboxes ∅.

(** *** The listing

    What [display_folder] and [display_folders] print is the list of the
    arguments of their calls of [print], in order. *)

(** [s * n] *)
Fixpoint str_times (s : string) (n : nat) : string :=
  match n with
  | O => ""
  | Datatypes.S n' => s +:+ str_times s n'
  end.

(** [sorted(l, key=lambda x: x.get('sortOrder', 999))]. Python's sort is
    stable: folders of equal [sortOrder] stay in the order of [l]. *)
Fixpoint insert_by_sortOrder (mb : mailbox) (l : list mailbox) : list mailbox :=
  match l with
  | [] => [mb]
  | x :: l' =>
      if sortOrder mb <=? sortOrder x then mb :: l
      else x :: insert_by_sortOrder mb l'
  end.

Definition sorted_by_sortOrder (l : list mailbox) : list mailbox :=
  foldr insert_by_sortOrder [] l.

(** [f" [{role}]" if role else ""] *)
Definition role_str (r : option string) : string :=
  match r with
  | Some r' => if String.eqb r' "" then "" else " [" +:+ r' +:+ "]"
  | None => ""
  end.

(** The lines [display_folder] prints for the folder itself. *)
Definition folder_lines (depth : nat) (mb : mailbox) : list string :=
  let indent := str_times "  " depth in
  [indent +:+ name mb +:+ role_str (role mb);
   indent +:+ "  ID: " +:+ id mb;
   indent +:+ "  Emails: " +:+ pretty (unreadEmails mb) +:+ " unread / "
          +:+ pretty (totalEmails mb) +:+ " total"]
  ++ (if 0 <? totalThreads mb
      then [indent +:+ "  Threads: " +:+ pretty (unreadThreads mb) +:+ " unread / "
                   +:+ pretty (totalThreads mb) +:+ " total"]
      else [])
  ++ [""].

(** [for x in l: body(x)], the output of the turns put end to end. *)
Fixpoint for_each (body : mailbox -> outcome (list string)) (l : list mailbox)
    : outcome (list string) :=
  match l with
  | [] => Done []
  | x :: l' =>
      match body x with
      | Diverge => Diverge
      | Done out =>
          match for_each body l' with
          | Diverge => Diverge
          | Done out' => Done (out ++ out')
          end
      end
  end.

(** [current_depth >= max_depth], when there is a limit. *)
Definition at_limit (max_depth : option Z) (current_depth : nat) : bool :=
  match max_depth with
  | Some m => m <=? Z.of_nat current_depth
  | None => false
  end.

(** [display_folder(mailbox, children_map, depth, max_depth, current_depth)];
    [fuel] bounds the nesting of the calls. *)
Fixpoint display_folder (fuel : nat) (mb : mailbox)
    (children_map : gmap string (list mailbox)) (depth : nat)
    (max_depth : option Z) (current_depth : nat) : outcome (list string) :=
  match fuel with
  | O => Diverge
  | Datatypes.S fuel' =>
      if at_limit max_depth current_depth then Done []
      else
        let children := default [] (children_map !! id mb) in
        let children_sorted := sorted_by_sortOrder children in
        match for_each (fun child =>
                 display_folder fuel' child children_map (Datatypes.S depth) max_depth
                                (Datatypes.S current_depth))
                children_sorted with
        | Diverge => Diverge
        | Done below => Done (folder_lines depth mb ++ below)
        end
  end.

Definition rule : string := str_times "=" 80.

Definition newline : string := String "010" "".

(** The line [Maximum depth: ...], printed when there is a limit. *)
Definition depth_line (max_depth : option Z) : list string :=
  match max_depth with
  | Some m => ["Maximum depth: " +:+ pretty m]
  | None => []
  end.

(** [display_folders(mailboxes, start_folder, max_depth)]; [lower] is
    [str.lower]. *)
Definition display_folders (fuel : nat) (lower : string -> string)
    (mailboxes : list mailbox) (start_folder : option string) (max_depth : option Z)
    : outcome (list string) :=
  match mailboxes with
  | [] => Done ["No folders found."]
  | _ :: _ =>
      let children_map := build_folder_tree mailboxes in
      let from_roots :=
        let root_mailboxes := default [] (children_map !! "root") in
        let root_sorted := sorted_by_sortOrder root_mailboxes in
        match for_each (fun mb => display_folder fuel mb children_map 0 max_depth 0)
                root_sorted with
        | Diverge => Diverge
        | Done out =>
            Done ([rule; "Folder Hierarchy";
                   "Found " +:+ pretty (length mailboxes) +:+ " folder(s)"]
                  ++ depth_line max_depth ++ [rule +:+ newline] ++ out)
        end in
      match start_folder with
      | None => from_roots
      | Some start =>
          if String.eqb start "" then from_roots
          else
            match first_named lower (lower start) mailboxes with
            | None => Done ["Error: Folder '" +:+ start +:+ "' not found"]
            | Some start_mailbox =>
                match display_folder fuel start_mailbox children_map 0 max_depth 0 with
                | Diverge => Diverge
                | Done out =>
                    Done ([rule;
                           "Folder Hierarchy starting from: " +:+ name start_mailbox]
                          ++ depth_line max_depth ++ [rule +:+ newline] ++ out)
                end
            end
      end
  end.

End ListFolders.

(** ** The loading of the credentials *)

Module Credentials.

(** [s.startswith(prefix)] *)
Fixpoint startswith (s prefix : string) {struct prefix} : bool :=
  match prefix with
  | EmptyString => true
  | String a prefix' =>
      match s with
      | EmptyString => false
      | String b s' => Ascii.eqb a b && startswith s' prefix'
      end
  end.

(** [s.replace(old, new)] for a non-empty [old]: the occurrences of [old]
    are taken from left to right and do not overlap; [skip] is the number
    of characters of an occurrence still to pass over. *)
Fixpoint replace_from (old new : string) (skip : nat) (s : string) : string :=
  match s with
  | EmptyString => EmptyString
  | String c s' =>
      match skip with
      | Datatypes.S k => replace_from old new k s'
      | O =>
          if startswith s old
          then new +:+ replace_from old new (String.length old - 1) s'
          else String c (replace_from old new 0 s')
      end
  end.

Definition str_replace (s old new : string) : string := replace_from old new 0 s.

(** [load_jmap_credentials_rw()], the same in the three scripts that write;
    [environ] is the environment once [load_dotenv()] has run. *)
Definition load_jmap_credentials_rw (environ : gmap string string)
    : exn + (string * string) :=
  let host := environ !! "JMAP_HOST" in
  let api_token := environ !! "JMAP_API_TOKEN_RW" in
  match host with
  | None | Some "" => inl (ValueError "JMAP_HOST environment variable is required")
  | Some host =>
      match api_token with
      | None | Some "" =>
          inl (ValueError "JMAP_API_TOKEN_RW environment variable is required")
      | Some api_token =>
          let host :=
            if startswith host "https://" then str_replace host "https://" "" else host in
          let host :=
            if startswith host "http://" then str_replace host "http://" "" else host in
          inr (host, api_token)
      end
  end.

(** [load_jmap_credentials()] of jmap_common.py *)
Definition load_jmap_credentials (environ : gmap string string)
    : exn + (string * string) :=
  let host := environ !! "JMAP_HOST" in
  let api_token := environ !! "JMAP_API_TOKEN" in
  match host, api_token with
  | None, _ | Some "", _ | _, None | _, Some "" => inl (SystemExit 1)
  | Some host, Some api_token =>
      inr (str_replace (str_replace host "https://" "") "http://" "", api_token)
  end.

End Credentials.

(** ** The [main] functions of the three writing scripts

    The arguments are the ones [parse_args()] returned, [environ] the
    environment once [load_dotenv()] has run, [stdin] the lines that
    [input()] can still read, [handshake] the opening of the session by
    [Client.create_with_api_token] ([Some e] when it raises [e]). What the
    scripts print is not part of the model. *)

(** How a script ends: by reaching the end of [main], by [sys.exit], or by
    an exception nothing catches. *)
Inductive ending :=
  | Returned
  | Exited (status : Z)
  | Uncaught (exception : string).

(** [JMAPClient.connect]: a failed handshake ends the process with status 1. *)
Definition connect (handshake : string -> string -> option string)
    (self : JMAPClient) : exn + JMAPClient :=
  match handshake (host self) (api_token self) with
  | Some e => inl (SystemExit 1)
  | None => inr {| host := host self; api_token := api_token self; client := Some () |}
  end.

(** The confirmation of the two writing scripts that ask for one:
<<
    if not args.yes:
        response = input("Continue? [y/N]: ")
        if response.lower() not in ('y', 'yes'):
            print("Cancelled.")
            sys.exit(0)
>>
    [inr true] to go on, [inr false] for the exit with status 0, [inl] when
    [input()] finds the input closed. *)
Definition confirm (lower : string -> string) (yes : bool) (stdin : list string)
    : string + bool :=
  if yes then inr true
  else
    match stdin with
    | [] => inl "EOFError"
    | response :: _ =>
        inr (bool_decide (lower response = "y") || bool_decide (lower response = "yes"))
    end.

Module ArchiveScript.

Record args := Args {
  folder_name : string;
  dry_run : bool;
  yes : bool;
}.

Section Main.
Context {S : Type}.
Variable serve : request -> S -> reply * S.
Variable lower : string -> string.
Variable handshake : string -> string -> option string.

(** The end of [main]: the call of [move_folder_to_archive] in its [try]. *)
Definition archive (client : JMAPClient) (folder_id archive_id : string) (w : world)
    : ending * world :=
  match move_folder_to_archive serve client folder_id archive_id w with
  | (inr true, w') => (Returned, w')
  | (inr false, w') => (Exited 1, w')
  | (inl (ValueError _), w') => (Exited 1, w')
  | (inl (SystemExit status), w') => (Exited status, w')
  end.

(** [main()] of jmap_archive_folder.py *)
Definition main (args : args) (environ : gmap string string) (stdin : list string)
    (w : world) : ending * world :=
  match Credentials.load_jmap_credentials_rw environ with
  | inl _ => (Exited 1, w)
  | inr (host, api_token) =>
  match connect handshake {| host := host; api_token := api_token; client := None |} with
  | inl _ => (Exited 1, w)
  | inr client =>
  match get_mailbox_by_name serve lower client "400_archives" w with
  | (inl (SystemExit status), w1) => (Exited status, w1)
  | (inl (ValueError msg), w1) => (Uncaught msg, w1)
  | (inr None, w1) => (Exited 1, w1)
  | (inr (Some archive_folder), w1) =>
  let archive_id := id archive_folder in
  (* find_folder_in_para(client, args.folder_name) *)
  match get_mailboxes serve client w1 with
  | (inl (SystemExit status), w2) => (Exited status, w2)
  | (inl (ValueError msg), w2) => (Uncaught msg, w2)
  | (inr all_mailboxes, w2) =>
  match ArchiveFolder.find_folder_in_para all_mailboxes (folder_name args) with
  | None => (Exited 1, w2)
  | Some folder_to_archive =>
  let folder_id := id (folder folder_to_archive) in
  if dry_run args then (Exited 0, w2)
  else
    match confirm lower (yes args) stdin with
    | inl e => (Uncaught e, w2)
    | inr false => (Exited 0, w2)
    | inr true => archive client folder_id archive_id w2
    end
  end end end end end.
End Main.

End ArchiveScript.

Module FileScript.

Record args := Args {
  email_id : string;
  folder_name : string;
  copy : bool;
  yes : bool;
  max_depth : option Z;
}.

Section Main.
Context {S : Type}.
Variable serve : request -> S -> reply * S.
Variable lower : string -> string.
Variable handshake : string -> string -> option string.

(** The loop that prints the current folders of the email: one call of
    [get_mailbox_name] for each. *)
Fixpoint name_each (client : JMAPClient) (current_mailboxes : list string) (w : world)
    : (exn + unit) * world :=
  match current_mailboxes with
  | [] => (inr (), w)
  | mb_id :: rest =>
      match get_mailbox_name serve client mb_id w with
      | (inl e, w') => (inl e, w')
      | (inr _, w') => name_each client rest w'
      end
  end.

(** The end of [main]: the call of [file_email] in its [try]. *)
Definition file (client : JMAPClient) (email_id target_id : string) (copy : bool)
    (w : world) : ending * world :=
  match file_email serve client email_id target_id copy w with
  | (inr true, w') => (Returned, w')
  | (inr false, w') => (Exited 1, w')
  | (inl (ValueError _), w') => (Exited 1, w')
  | (inl (SystemExit status), w') => (Exited status, w')
  end.

(** [main()] of jmap_file_email.py; [fuel] bounds the nesting of the calls
    of the folder search. The keys of [mailboxIds] are taken in the order
    of the map: the calls made for them are the same in any order. *)
Definition main (fuel : nat) (args : args) (environ : gmap string string)
    (stdin : list string) (w : world) : ending * world :=
  match Credentials.load_jmap_credentials_rw environ with
  | inl _ => (Exited 1, w)
  | inr (host, api_token) =>
  match connect handshake {| host := host; api_token := api_token; client := None |} with
  | inl _ => (Exited 1, w)
  | inr client =>
  match get_email_info serve client (email_id args) w with
  | (inl (ValueError _), w1) => (Exited 1, w1)
  | (inl (SystemExit status), w1) => (Exited status, w1)
  | (inr None, w1) => (Exited 1, w1)
  | (inr (Some email_info), w1) =>
  match info_mailboxIds email_info with
  | None => (Uncaught "AttributeError", w1)
  | Some mailboxIds =>
  match name_each client (map_to_list mailboxIds).*1 w1 with
  | (inl (SystemExit status), w2) => (Exited status, w2)
  | (inl (ValueError msg), w2) => (Uncaught msg, w2)
  | (inr _, w2) =>
  (* find_folder_in_para(client, args.folder_name, max_depth=args.max_depth) *)
  match get_mailboxes serve client w2 with
  | (inl (SystemExit status), w3) => (Exited status, w3)
  | (inl (ValueError msg), w3) => (Uncaught msg, w3)
  | (inr all_mailboxes, w3) =>
  match FileEmail.find_folder_in_para fuel all_mailboxes (folder_name args) (max_depth args) with
  | Diverge => (Uncaught "RecursionError", w3)
  | Done None => (Exited 1, w3)
  | Done (Some target_folder) =>
  let target_id := id (folder target_folder) in
  match confirm lower (yes args) stdin with
  | inl e => (Uncaught e, w3)
  | inr false => (Exited 0, w3)
  | inr true => file client (email_id args) target_id (copy args) w3
  end end end end end end end end.
End Main.

End FileScript.

Module CreateScript.

Record args := Args {
  parent : string;
  name : string;
}.

Section Main.
Context {S : Type}.
Variable serve : request -> S -> reply * S.
Variable lower : string -> string.
Variable handshake : string -> string -> option string.

(** [main()] of jmap_create_folder.py; [parent] is one of the three values
    that [parse_args()] lets through. *)
Definition main (args : args) (environ : gmap string string) (w : world)
    : ending * world :=
  match Credentials.load_jmap_credentials_rw environ with
  | inl _ => (Exited 1, w)
  | inr (host, api_token) =>
  match connect handshake {| host := host; api_token := api_token; client := None |} with
  | inl _ => (Exited 1, w)
  | inr client =>
  match get_mailbox_by_name serve lower client (parent args) w with
  | (inl (SystemExit status), w1) => (Exited status, w1)
  | (inl (ValueError msg), w1) => (Uncaught msg, w1)
  | (inr None, w1) => (Exited 1, w1)
  | (inr (Some parent_mailbox), w1) =>
  let parent_id := id parent_mailbox in
  match create_folder serve client parent_id (name args) w1 with
  | (inr _, w2) => (Returned, w2)
  | (inl (ValueError _), w2) => (Exited 1, w2)
  | (inl (SystemExit status), w2) => (Exited status, w2)
  end end end end.
End Main.

End CreateScript.

(** [c] is none of the characters of [s]. *)
Fixpoint lacks (c : ascii) (s : string) : Prop :=
  match s with
  | EmptyString => True
  | String b s' => b <> c /\ lacks c s'
  end.

(** The requests of a run of the archive script before its last step. *)
Definition only_reads (before after : list request) : Prop :=
  exists n, after = before ++ replicate n MailboxGet.

(** A request that changes nothing on the server. *)
Definition is_read (rq : request) : Prop :=
  match rq with
  | MailboxGet | EmailGet _ _ => True
  | _ => False
  end.

(** The folders the email is in once it is filed under [target]. *)
Definition filed_under (copy : bool) (target : string) (current : gmap string bool)
    : gmap string bool :=
  if copy then <[ target := true ]> current else {[ target := true ]}.

(** * Properties *)

Ltac by_computation :=
  match goal with
  | |- ?P => apply (bool_decide_unpack P); vm_compute; exact I
  end.

(** ** Filing an email *)

Lemma truthy_map_None {V} (m : option (gmap string V)) :
  truthy_map m = None <-> m = None \/ m = Some ∅.
Proof.
  unfold truthy_map. destruct m as [d|].
  - case_bool_decide; split; intros H'; try discriminate; subst; auto.
    destruct H' as [H'|H']; congruence.
  - split; auto.
Qed.

Lemma truthy_map_Some {V} (m : option (gmap string V)) d :
  truthy_map m = Some d <-> m = Some d /\ d <> ∅.
Proof.
  unfold truthy_map. destruct m as [d'|].
  - case_bool_decide; split; intros H'; try discriminate.
    + destruct H' as [H1 H2]. congruence.
    + split; congruence.
    + tauto.
  - split; [discriminate|]. intros [H' _]. discriminate.
Qed.

Lemma truthy_set_None (m : option (gset string)) :
  truthy_set m = None <-> m = None \/ m = Some ∅.
Proof.
  unfold truthy_set. destruct m as [d|].
  - case_bool_decide; split; intros H'; try discriminate; subst; auto.
    destruct H' as [H'|H']; congruence.
  - split; auto.
Qed.

Lemma truthy_set_Some (m : option (gset string)) d :
  truthy_set m = Some d <-> m = Some d /\ d <> ∅.
Proof.
  unfold truthy_set. destruct m as [d'|].
  - case_bool_decide; split; intros H'; try discriminate.
    + destruct H' as [H1 H2]. congruence.
    + split; congruence.
    + tauto.
  - split; [discriminate|]. intros [H' _]. discriminate.
Qed.

(** [submit_mailbox_ids] sends one request, whatever the server answers. *)
Lemma submit_sent {S} (serve : request -> S -> reply * S) e m w :
  sent (submit_mailbox_ids serve e m w).2 = sent w ++ [EmailSet_update e m].
Proof.
  unfold submit_mailbox_ids, send.
  destruct (serve _ _) as [rp s]. simpl.
  destruct rp as [r|x]; [destruct (check_filed e r)|]; reflexivity.
Qed.

(** On the reference store an update of an email that exists succeeds and
    leaves the submitted map as its [mailboxIds]. *)
Lemma submit_store e m s em l :
  Store.emails s !! e = Some em ->
  submit_mailbox_ids Store.serve e m (World s l)
  = (inr true,
     World {| Store.mailboxes := Store.mailboxes s;
              Store.emails := <[ e := Store.set_mailbox_ids m em ]> (Store.emails s);
              Store.next_id := Store.next_id s |}
           (l ++ [EmailSet_update e m])).
Proof.
  intros He. unfold submit_mailbox_ids, send. simpl. rewrite He. simpl.
  unfold check_filed, has_not_updated, has_updated, truthy_set. simpl.
  rewrite bool_decide_eq_false_2 by set_solver.
  rewrite bool_decide_eq_true_2 by set_solver. reflexivity.
Qed.

(** C1: [file_email] with [copy=False] sends exactly one request, the
    [EmailSet] update whose [mailboxIds] is [{target: True}], so no read of
    the email's folders precedes the write; on the mail store the email,
    whatever folders it was in, is left in the target folder alone. *)
Theorem C1_move_replaces_membership (c : JMAPClient) (e z : string)
    (s : Store.store) (em : email)
    (Hc : is_Some (client c)) (He : Store.emails s !! e = Some em) :
  (forall (S : Type) (serve : request -> S -> reply * S) (w : world),
      sent (file_email serve c e z false w).2
      = sent w ++ [EmailSet_update e {[ z := true ]}])
  /\ (exists s',
      file_email Store.serve c e z false (World s [])
      = (inr true, World s' [EmailSet_update e {[ z := true ]}])
      /\ mailbox_ids <$> (Store.emails s' !! e) = Some (Some {[ z := true ]})).
Proof.
  destruct Hc as [u Hu]. split.
  - intros S serve w. unfold file_email. rewrite Hu. apply submit_sent.
  - unfold file_email. rewrite Hu.
    rewrite (submit_store e _ s em [] He). simpl.
    eexists. split; [reflexivity|]. simpl.
    rewrite lookup_insert_eq. reflexivity.
Qed.

Lemma C1_witness :
  exists s',
    file_email Store.serve connected "email_123" "Z" false
      (World (store_with "email_123" {[ "X" := true; "Y" := true ]}) [])
    = (inr true, World s' [EmailSet_update "email_123" {[ "Z" := true ]}])
    /\ mailbox_ids <$> (Store.emails s' !! "email_123") = Some (Some {[ "Z" := true ]}).
Proof.
  apply (C1_move_replaces_membership connected "email_123" "Z"
           (store_with "email_123" {[ "X" := true; "Y" := true ]})
           (email_in "email_123" {[ "X" := true; "Y" := true ]})).
  - exists (). reflexivity.
  - apply lookup_singleton_eq.
Defined.

(** [get_email_info] on a connected client sends one [EmailGet]. *)
Lemma get_email_info_sent {S} (serve : request -> S -> reply * S) c e w :
  is_Some (client c) ->
  sent (get_email_info serve c e w).2 = sent w ++ [EmailGet [e] email_properties].
Proof.
  intros [u Hu]. unfold get_email_info, send. rewrite Hu.
  destruct (serve _ _) as [rp s]. simpl.
  destruct rp as [[[|mb l]|[|em l]|r|]|x]; reflexivity.
Qed.

(** What [file_email] with [copy=True] sends once the read has returned the
    email's current folders. *)
Lemma file_email_copy_step {S} (serve : request -> S -> reply * S) c e z w info w1 m :
  is_Some (client c) ->
  get_email_info serve c e w = (inr (Some info), w1) ->
  info_mailboxIds info = Some m ->
  file_email serve c e z true w = submit_mailbox_ids serve e (<[ z := true ]> m) w1.
Proof.
  intros [u Hu] Hget Hm. unfold file_email. rewrite Hu, Hget, Hm. reflexivity.
Qed.

(** With [copy=True] the read is sent first, and at most one write follows. *)
Lemma file_email_copy_sent {S} (serve : request -> S -> reply * S) c e z w :
  is_Some (client c) ->
  exists rest,
    sent (file_email serve c e z true w).2
    = sent w ++ EmailGet [e] email_properties :: rest
    /\ (rest = [] \/ exists cur, rest = [EmailSet_update e (<[ z := true ]> cur)]).
Proof.
  intros Hc. pose proof (get_email_info_sent serve c e w Hc) as Hs.
  destruct Hc as [u Hu]. unfold file_email. rewrite Hu.
  destruct (get_email_info serve c e w) as [[[m|k]|[info|]] w1]; simpl in *;
    try (exists []; split; [rewrite Hs; reflexivity | left; reflexivity]).
  destruct (info_mailboxIds info) as [cur|]; simpl.
  - exists [EmailSet_update e (<[ z := true ]> cur)]. split; [|right; eauto].
    rewrite submit_sent, Hs, <- app_assoc. reflexivity.
  - exists []. split; [rewrite Hs; reflexivity | left; reflexivity].
Qed.

(** The read of an email that exists on the reference store. *)
Lemma get_email_info_store c e s em l :
  is_Some (client c) ->
  Store.emails s !! e = Some em ->
  exists info,
    get_email_info Store.serve c e (World s l)
    = (inr (Some info), World s (l ++ [EmailGet [e] email_properties]))
    /\ info_mailboxIds info = mailbox_ids em.
Proof.
  intros [u Hu] He. unfold get_email_info, send. rewrite Hu. simpl. rewrite He. simpl.
  eexists. split; reflexivity.
Qed.

Lemma insert_singleton_pair (x z : string) :
  <[ z := true ]> ({[ x := true ]} : gmap string bool) = {[ x := true; z := true ]}.
Proof.
  apply map_eq. intros k.
  destruct (decide (k = z)) as [Hkz|Hkz]; destruct (decide (k = x)) as [Hkx|Hkx];
    subst; simplify_map_eq; reflexivity.
Qed.

(** C4: [file_email] with [copy=True] sends the read of the email first;
    for an email that is in the folder [x], the update it then sends carries
    [x] and the target, the store ends with the email in both, and the run
    has one request more than the move of the same email. *)
Theorem C4_copy_adds_membership (c : JMAPClient) (e z x : string)
    (s : Store.store) (em : email)
    (Hc : is_Some (client c)) (He : Store.emails s !! e = Some em)
    (Hm : mailbox_ids em = Some {[ x := true ]}) :
  (forall (S : Type) (serve : request -> S -> reply * S) (w : world),
      exists rest,
        sent (file_email serve c e z true w).2
        = sent w ++ EmailGet [e] email_properties :: rest
        /\ (rest = [] \/ exists cur, rest = [EmailSet_update e (<[ z := true ]> cur)]))
  /\ (exists s',
      file_email Store.serve c e z true (World s [])
      = (inr true,
         World s' [EmailGet [e] email_properties;
                   EmailSet_update e {[ x := true; z := true ]}])
      /\ mailbox_ids <$> (Store.emails s' !! e) = Some (Some {[ x := true; z := true ]}))
  /\ length (sent (file_email Store.serve c e z true (World s [])).2)
     = Datatypes.S (length (sent (file_email Store.serve c e z false (World s [])).2)).
Proof.
  destruct (get_email_info_store c e s em [] Hc He) as (info & Hget & Hinfo).
  rewrite Hm in Hinfo.
  pose proof (file_email_copy_step Store.serve c e z _ info _ _ Hc Hget Hinfo) as Hstep.
  rewrite insert_singleton_pair in Hstep.
  rewrite (submit_store e _ s em _ He) in Hstep. simpl in Hstep.
  split; [|split].
  - intros S serve w. apply file_email_copy_sent, Hc.
  - eexists. split; [exact Hstep|]. simpl. rewrite lookup_insert_eq. reflexivity.
  - rewrite Hstep. destruct Hc as [u Hu]. unfold file_email at 1. rewrite Hu.
    rewrite (submit_store e _ s em _ He). reflexivity.
Qed.

Lemma C4_witness :
  exists s',
    file_email Store.serve connected "email_123" "Z" true
      (World (store_with "email_123" {[ "X" := true ]}) [])
    = (inr true,
       World s' [EmailGet ["email_123"] email_properties;
                 EmailSet_update "email_123" {[ "X" := true; "Z" := true ]}])
    /\ mailbox_ids <$> (Store.emails s' !! "email_123")
       = Some (Some {[ "X" := true; "Z" := true ]}).
Proof.
  apply (C4_copy_adds_membership connected "email_123" "Z" "X"
           (store_with "email_123" {[ "X" := true ]})
           (email_in "email_123" {[ "X" := true ]})).
  - exists (). reflexivity.
  - apply lookup_singleton_eq.
  - reflexivity.
Defined.

(** C10: when the folders read for the email already hold the target with
    value [True], the map [file_email] submits with [copy=True] is the map
    it read; on the mail store the emails are then left as they were. *)
Theorem C10_copy_idempotent (c : JMAPClient) (e z : string) (m : gmap string bool)
    (Hc : is_Some (client c)) (Hz : m !! z = Some true) :
  (forall (S : Type) (serve : request -> S -> reply * S) (w w1 : world) info,
      get_email_info serve c e w = (inr (Some info), w1) ->
      info_mailboxIds info = Some m ->
      sent (file_email serve c e z true w).2 = sent w1 ++ [EmailSet_update e m])
  /\ (forall (s : Store.store) (em : email),
      Store.emails s !! e = Some em ->
      mailbox_ids em = Some m ->
      exists s',
        file_email Store.serve c e z true (World s [])
        = (inr true, World s' [EmailGet [e] email_properties; EmailSet_update e m])
        /\ Store.emails s' = Store.emails s).
Proof.
  split.
  - intros S serve w w1 info Hget Hm.
    rewrite (file_email_copy_step serve c e z w info w1 m Hc Hget Hm).
    rewrite (insert_id m z true Hz). apply submit_sent.
  - intros s em He Hm.
    destruct (get_email_info_store c e s em [] Hc He) as (info & Hget & Hinfo).
    rewrite Hm in Hinfo.
    rewrite (file_email_copy_step Store.serve c e z _ info _ m Hc Hget Hinfo).
    rewrite (insert_id m z true Hz).
    rewrite (submit_store e _ s em _ He). simpl.
    eexists. split; [reflexivity|]. simpl.
    apply insert_id. rewrite He. f_equal.
    destruct em as [i sb fr mi ra]. simpl in Hm. subst mi. reflexivity.
Qed.

Lemma C10_witness :
  exists s',
    file_email Store.serve connected "email_123" "Z" true
      (World (store_with "email_123" {[ "X" := true; "Z" := true ]}) [])
    = (inr true,
       World s' [EmailGet ["email_123"] email_properties;
                 EmailSet_update "email_123" {[ "X" := true; "Z" := true ]}])
    /\ Store.emails s' = Store.emails (store_with "email_123" {[ "X" := true; "Z" := true ]}).
Proof.
  refine (proj2 (C10_copy_idempotent connected "email_123" "Z"
                   {[ "X" := true; "Z" := true ]} _ _) _ _ _ _).
  - exists (). reflexivity.
  - vm_compute. reflexivity.
  - apply lookup_singleton_eq.
  - reflexivity.
Defined.

(** ** Moving a folder to the archive *)

Lemma move_folder_to_archive_checked {S} (serve : request -> S -> reply * S)
    c f a w resp s' :
  is_Some (client c) ->
  serve (MailboxSet_update f a) (remote w) = (Returns resp, s') ->
  (move_folder_to_archive serve c f a w).1
  = match check_moved f resp with
    | inr b => inr b
    | inl e => inl (ValueError ("Error moving folder: " +:+ e))
    end.
Proof.
  intros [u Hu] Hr. unfold move_folder_to_archive, send. rewrite Hu, Hr.
  destruct (check_moved f resp); reflexivity.
Qed.

(** C6 (as the code reads the response): a non-empty "not updated" map, for
    whatever id, is a move failure whose detail is the entry of the folder
    id ([{}] when it has none), and it is looked at first; otherwise an
    "updated" set that holds the folder id is success; every other response
    is the unexpected-response failure; success is reported in no other
    case. *)
Theorem C6_move_reads_response {S : Type} (serve : request -> S -> reply * S)
    (c : JMAPClient) (f a : string) (w : world) (resp : response) (s' : S)
    (Hc : is_Some (client c))
    (Hr : serve (MailboxSet_update f a) (remote w) = (Returns resp, s')) :
  let result := (move_folder_to_archive serve c f a w).1 in
  (forall r nu, resp = SetResponseOf r -> not_updated r = Some nu -> nu <> ∅ ->
      result = move_rejected (default "{}" (nu !! f)))
  /\ (forall r u, resp = SetResponseOf r ->
      not_updated r = None \/ not_updated r = Some ∅ ->
      updated r = Some u -> f ∈ u -> result = inr true)
  /\ (forall r, resp = SetResponseOf r ->
      not_updated r = None \/ not_updated r = Some ∅ ->
      (forall u, updated r = Some u -> f ∉ u) -> result = move_unexpected)
  /\ ((forall r, resp <> SetResponseOf r) -> result = move_unexpected)
  /\ (result = inr true ->
      exists r u, resp = SetResponseOf r
        /\ (not_updated r = None \/ not_updated r = Some ∅)
        /\ updated r = Some u /\ f ∈ u).
Proof.
  intros result. subst result.
  rewrite (move_folder_to_archive_checked serve c f a w resp s' Hc Hr).
  unfold check_moved. repeat split.
  - intros r nu -> Hnu Hne. simpl.
    rewrite (proj2 (truthy_map_Some _ nu) (conj Hnu Hne)). reflexivity.
  - intros r u -> Hnu Hu Hf. simpl.
    rewrite (proj2 (truthy_map_None _) Hnu).
    assert (Hne : u <> ∅) by (intros ->; exact (not_elem_of_empty (C:=gset string) f Hf)).
    rewrite (proj2 (truthy_set_Some _ u) (conj Hu Hne)).
    rewrite bool_decide_eq_true_2 by assumption. reflexivity.
  - intros r -> Hnu Hu. simpl.
    rewrite (proj2 (truthy_map_None _) Hnu).
    destruct (truthy_set (updated r)) as [u|] eqn:Eu; [|reflexivity].
    apply truthy_set_Some in Eu as [Eu _].
    rewrite bool_decide_eq_false_2 by (apply Hu, Eu). reflexivity.
  - intros Hno. destruct resp as [d|d|r|]; try reflexivity.
    exfalso. apply (Hno r). reflexivity.
  - destruct resp as [d|d|r|]; simpl; try discriminate.
    destruct (truthy_map (not_updated r)) as [nu|] eqn:En; [discriminate|].
    destruct (truthy_set (updated r)) as [u|] eqn:Eu; [|discriminate].
    case_bool_decide as Hf; [|discriminate].
    intros _. exists r, u. apply truthy_map_None in En.
    apply truthy_set_Some in Eu as [Eu _]. auto.
Qed.

Lemma C6_witness :
  (move_folder_to_archive (always (moved_response "folder_id")) connected
     "folder_id" "archive_id" (World () [])).1 = inr true.
Proof.
  refine (proj1 (proj2 (C6_move_reads_response
            (always (moved_response "folder_id")) connected "folder_id" "archive_id"
            (World () []) (moved_response "folder_id") () _ _))
          _ {[ "folder_id" ]} eq_refl _ eq_refl _).
  - exists (). reflexivity.
  - reflexivity.
  - right. reflexivity.
  - set_solver.
Defined.

(** C6, as stated, fails: the "updated" set holds the folder id and the
    "not updated" map has no entry for it, yet the operation raises the move
    failure, with no server detail. *)
Lemma C6_counterexample :
  (exists r u, mixed_response = SetResponseOf r
     /\ updated r = Some u /\ "folder_id" ∈ u
     /\ forall nu, not_updated r = Some nu -> nu !! "folder_id" = None)
  /\ (move_folder_to_archive (always mixed_response) connected
        "folder_id" "archive_id" (World () [])).1
     = move_rejected "{}"
  /\ (move_folder_to_archive (always mixed_response) connected
        "folder_id" "archive_id" (World () [])).1 <> inr true.
Proof.
  assert (Hrun : (move_folder_to_archive (always mixed_response) connected
        "folder_id" "archive_id" (World () [])).1 = move_rejected "{}").
  { rewrite (move_folder_to_archive_checked _ connected "folder_id" "archive_id"
               (World () []) mixed_response ()); [| exists (); reflexivity | reflexivity].
    unfold check_moved, mixed_response, has_not_updated, truthy_map. simpl.
    rewrite bool_decide_eq_false_2.
    - rewrite lookup_singleton_ne by discriminate. reflexivity.
    - intros Hempty. apply (f_equal (fun m => m !! "other_id")) in Hempty.
      rewrite lookup_singleton_eq, lookup_empty in Hempty. discriminate. }
  split; [|split].
  - eexists _, _. split; [reflexivity|]. split; [reflexivity|].
    split; [apply elem_of_singleton; reflexivity|].
    intros nu [= <-]. apply lookup_singleton_ne. discriminate.
  - exact Hrun.
  - rewrite Hrun. discriminate.
Qed.

(** ** The PARA parents *)

Lemma odict_mem_keys {V} (k : string) (d : odict V) :
  odict_mem k d = true <-> k ∈ d.*1.
Proof.
  induction d as [|[k' v] d IH]; simpl.
  - split; [discriminate|]. intros H. inversion H.
  - destruct (String.eqb_spec k' k) as [->|Hne].
    + split; [intros _; left | reflexivity].
    + rewrite IH. split; [right; assumption|].
      intros H. inversion H; subst; [congruence | assumption].
Qed.

Lemma odict_set_keys {V} (k : string) (v : V) (d : odict V) :
  odict_mem k d = true -> (odict_set k v d).*1 = d.*1.
Proof.
  induction d as [|[k' v'] d IH]; simpl; [discriminate|].
  destruct (String.eqb k' k); [reflexivity|].
  intros H. rewrite !fmap_cons. f_equal. apply IH, H.
Qed.

Lemma odict_get_set_eq {V} (k : string) (v : V) (d : odict V) :
  odict_get k (odict_set k v d) = Some v.
Proof.
  induction d as [|[k' v'] d IH]; simpl.
  - rewrite String.eqb_refl. reflexivity.
  - destruct (String.eqb k' k) eqn:E; simpl; rewrite E; [reflexivity | exact IH].
Qed.

Lemma odict_get_set_ne {V} (k k0 : string) (v : V) (d : odict V) :
  k <> k0 -> odict_get k (odict_set k0 v d) = odict_get k d.
Proof.
  intros Hne. induction d as [|[k' v'] d IH]; simpl.
  - destruct (String.eqb_spec k0 k); [congruence | reflexivity].
  - destruct (String.eqb_spec k' k0) as [->|Hk]; simpl.
    + destruct (String.eqb_spec k0 k); [congruence | reflexivity].
    + destruct (String.eqb k' k); [reflexivity | exact IH].
Qed.

Lemma find_para_parents_fold mbs :
  find_para_parents mbs = fold_left note_parent mbs para_parents_init.
Proof. reflexivity. Qed.

Lemma note_parent_keys d mb : (note_parent d mb).*1 = d.*1.
Proof.
  unfold note_parent. destruct (odict_mem (name mb) d) eqn:E; [|reflexivity].
  apply odict_set_keys, E.
Qed.

Lemma fold_note_keys mbs d : (fold_left note_parent mbs d).*1 = d.*1.
Proof.
  revert d. induction mbs as [|mb mbs IH]; intros d; simpl; [reflexivity|].
  rewrite IH. apply note_parent_keys.
Qed.

(** The keys of [para_parents] and their order never change. *)
Lemma find_para_parents_keys mbs : (find_para_parents mbs).*1 = para_names.
Proof. rewrite find_para_parents_fold, fold_note_keys. reflexivity. Qed.

Lemma note_parent_get_other d mb k :
  name mb <> k -> odict_get k (note_parent d mb) = odict_get k d.
Proof.
  intros Hne. unfold note_parent. destruct (odict_mem (name mb) d); [|reflexivity].
  apply odict_get_set_ne. congruence.
Qed.

Lemma note_parent_get_same d mb :
  name mb ∈ d.*1 -> odict_get (name mb) (note_parent d mb) = Some (Some (id mb)).
Proof.
  intros Hin. unfold note_parent.
  rewrite (proj2 (odict_mem_keys _ _) Hin). apply odict_get_set_eq.
Qed.

Lemma fold_note_get_other l d k :
  (forall x, x ∈ l -> name x <> k) ->
  odict_get k (fold_left note_parent l d) = odict_get k d.
Proof.
  revert d. induction l as [|mb l IH]; intros d Hl; simpl; [reflexivity|].
  rewrite IH by (intros x Hx; apply Hl; right; exact Hx).
  apply note_parent_get_other, Hl. left.
Qed.

(** The PARA parent kept for a name is the last mailbox of the list that
    bears it. *)
Lemma find_para_parents_last l1 mb l2 :
  name mb ∈ para_names ->
  (forall x, x ∈ l2 -> name x <> name mb) ->
  odict_get (name mb) (find_para_parents (l1 ++ mb :: l2)) = Some (Some (id mb)).
Proof.
  intros Hk Hl2. rewrite find_para_parents_fold, fold_left_app. simpl.
  rewrite fold_note_get_other by assumption.
  apply note_parent_get_same. rewrite fold_note_keys. exact Hk.
Qed.

(** A PARA parent that was found is the id of a mailbox with that name. *)
Lemma fold_note_origin l d k pid :
  odict_get k (fold_left note_parent l d) = Some (Some pid) ->
  odict_get k d = Some (Some pid)
  \/ exists mb, mb ∈ l /\ name mb = k /\ id mb = pid.
Proof.
  revert d. induction l as [|mb l IH]; intros d H; simpl in *; [left; exact H|].
  destruct (IH _ H) as [H1|(x & Hx & Hn & Hi)].
  - destruct (decide (name mb = k)) as [E|E].
    + unfold note_parent in H1. destruct (odict_mem (name mb) d) eqn:Em.
      * rewrite <- E, odict_get_set_eq in H1. injection H1 as H1.
        right. exists mb. split; [left|]. split; assumption.
      * left. exact H1.
    + left. rewrite note_parent_get_other in H1 by assumption. exact H1.
  - right. exists x. split; [right; exact Hx|]. split; assumption.
Qed.

Lemma find_para_parents_origin mbs k pid :
  odict_get k (find_para_parents mbs) = Some (Some pid) ->
  exists mb, mb ∈ mbs /\ name mb = k /\ id mb = pid.
Proof.
  intros H. rewrite find_para_parents_fold in H.
  apply fold_note_origin in H as [H|H]; [|exact H].
  unfold para_parents_init in H. cbn [odict_get] in H.
  repeat (destruct (String.eqb _ k); [discriminate|]). discriminate.
Qed.

(** [para_parents.items()], spelled out. *)
Lemma find_para_parents_items mbs :
  exists v1 v2 v3,
    find_para_parents mbs
    = [("100_projects", v1); ("200_areas", v2); ("300_resources", v3)].
Proof.
  pose proof (find_para_parents_keys mbs) as H.
  destruct (find_para_parents mbs) as [|[k1 v1] [|[k2 v2] [|[k3 v3] [|? ?]]]];
    try discriminate.
  injection H as -> -> ->. eauto.
Qed.

(** ** Folders that share a name *)

Example str_lower_sent : str_lower "Sent Items" = "sent items".
Proof. reflexivity. Qed.

Lemma first_named_first lower n l1 mb l2 :
  (forall x, x ∈ l1 -> lower (name x) <> n) ->
  lower (name mb) = n ->
  first_named lower n (l1 ++ mb :: l2) = Some mb.
Proof.
  intros Hl1 Hmb. induction l1 as [|x l1 IH]; simpl.
  - rewrite (proj2 (String.eqb_eq _ _) Hmb). reflexivity.
  - rewrite (proj2 (String.eqb_neq _ _)) by (apply Hl1; left).
    apply IH. intros y Hy. apply Hl1. right. exact Hy.
Qed.

(** C8 (as the code resolves names): [get_mailbox_by_name] returns the
    first mailbox of the list whose lower-cased name is the lower-cased
    name asked for; the PARA parent a resolver keeps for a PARA name is the
    id of the last mailbox of the list that bears exactly that name. *)
Theorem C8_name_resolution (lower : string -> string) (mbs : list mailbox)
    (n : string) (l1 l2 : list mailbox) (mb : mailbox)
    (k1 k2 : list mailbox) (root : mailbox)
    (Hsplit : mbs = l1 ++ mb :: l2)
    (Hbefore : forall x, x ∈ l1 -> lower (name x) <> lower n)
    (Hmb : lower (name mb) = lower n)
    (Hroots : mbs = k1 ++ root :: k2)
    (Hpara : name root ∈ para_names)
    (Hafter : forall x, x ∈ k2 -> name x <> name root) :
  (forall (S : Type) (serve : request -> S -> reply * S) (c : JMAPClient) (w : world) s',
      is_Some (client c) ->
      serve MailboxGet (remote w) = (Returns (MailboxGetResponse mbs), s') ->
      (get_mailbox_by_name serve lower c n w).1 = inr (Some mb))
  /\ odict_get (name root) (find_para_parents mbs) = Some (Some (id root)).
Proof.
  split.
  - intros S serve c w s' [u Hu] Hr.
    unfold get_mailbox_by_name, get_mailboxes, send. rewrite Hu, Hr. simpl.
    rewrite Hsplit, (first_named_first lower (lower n) l1 mb l2 Hbefore Hmb).
    reflexivity.
  - rewrite Hroots. apply find_para_parents_last; assumption.
Qed.

Lemma C8_witness :
  (get_mailbox_by_name (always (MailboxGetResponse two_roots)) str_lower connected
     "100_PROJECTS" (World () [])).1
  = inr (Some (mk "r1" "100_projects" None))
  /\ odict_get "100_projects" (find_para_parents two_roots) = Some (Some "r2").
Proof.
  assert (Hnone : forall x : mailbox, x ∈ [] -> False) by (intros x Hx; inversion Hx).
  assert (Hpara : "100_projects" ∈ para_names) by left.
  pose proof (C8_name_resolution str_lower two_roots "100_PROJECTS"
                [] [mk "p" "Project" (Some "r1"); mk "r2" "100_projects" None]
                (mk "r1" "100_projects" None)
                [mk "r1" "100_projects" None; mk "p" "Project" (Some "r1")] []
                (mk "r2" "100_projects" None)
                eq_refl (fun x Hx => False_ind _ (Hnone x Hx)) eq_refl
                eq_refl Hpara (fun x Hx => False_ind _ (Hnone x Hx))) as [H1 H2].
  split; [|exact H2].
  apply (H1 unit (always (MailboxGetResponse two_roots)) connected (World () []) ()).
  - exists (). reflexivity.
  - reflexivity.
Defined.

(** C8, as stated, fails for the PARA parents: of two folders named
    100_projects the resolvers keep the second, not the first in list
    order, and so do not see the folder that is under the first. *)
Lemma C8_counterexample :
  head (filter (fun mb => name mb = "100_projects") two_roots)
  = Some (mk "r1" "100_projects" None)
  /\ odict_get "100_projects" (find_para_parents two_roots) = Some (Some "r2")
  /\ ArchiveFolder.find_folder_in_para two_roots "Project" = None
  /\ FileEmail.find_folder_in_para 5 two_roots "Project" None = Done None.
Proof. repeat split; vm_compute; reflexivity. Qed.

(** ** The recursive resolver *)

Section ResolverFacts.
Variable mbs : list mailbox.
Variable fname : string.
Variable md : option Z.
Variable pp : odict (option string).

Local Abbreviation scan := (FileEmail.scan fname pp).
Local Abbreviation search := (FileEmail.search_descendants mbs fname md pp).

Lemma descends_pos p k mb : descends mbs p k mb -> (1 <= k)%nat.
Proof. destruct 1; lia. Qed.

Lemma descends_in p k mb : descends mbs p k mb -> mb ∈ mbs.
Proof. induction 1; assumption. Qed.

Lemma scan_found recurse p pn l r :
  scan recurse p pn l = Done (Some r) ->
  (exists mb, mb ∈ l /\ parentId mb = Some p /\ name mb = fname
              /\ r = Found mb pn (default None (odict_get pn pp)))
  \/ (exists c, c ∈ l /\ parentId c = Some p /\ recurse c = Done (Some r)).
Proof.
  induction l as [|mb l IH]; simpl; [discriminate|].
  case_bool_decide as Hp.
  - destruct (String.eqb_spec (name mb) fname) as [Hn|Hn].
    + intros [= <-]. left. exists mb. repeat split; try assumption. left.
    + destruct (recurse mb) as [[r'|]|] eqn:Er; try discriminate.
      * intros [= <-]. right. exists mb. repeat split; try assumption. left.
      * intros H. destruct (IH H) as [(x & Hx & H')|(x & Hx & H')];
          [left|right]; exists x; (split; [right; exact Hx | exact H']).
  - intros H. destruct (IH H) as [(x & Hx & H')|(x & Hx & H')];
      [left|right]; exists x; (split; [right; exact Hx | exact H']).
Qed.

Lemma scan_not_found recurse p pn l :
  scan recurse p pn l = Done None ->
  forall c, c ∈ l -> parentId c = Some p ->
    name c <> fname /\ recurse c = Done None.
Proof.
  induction l as [|mb l IH]; simpl; intros H c Hc Hp.
  - inversion Hc.
  - case_bool_decide as Hp'.
    + destruct (String.eqb_spec (name mb) fname) as [Hn|Hn]; [discriminate|].
      destruct (recurse mb) as [[r'|]|] eqn:Er; try discriminate.
      inversion Hc; subst; [split; assumption | apply IH; assumption].
    + inversion Hc; subst; [contradiction | apply IH; assumption].
Qed.

Lemma scan_returns recurse p pn l :
  (forall c, c ∈ l -> parentId c = Some p -> exists r, recurse c = Done r) ->
  exists r, scan recurse p pn l = Done r.
Proof.
  induction l as [|mb l IH]; simpl; intros H; [eauto|].
  assert (IH' : exists r, scan recurse p pn l = Done r).
  { apply IH. intros c Hc. apply H. right. exact Hc. }
  case_bool_decide as Hp; [|exact IH'].
  destruct (String.eqb (name mb) fname); [eauto|].
  destruct (H mb) as [[r|] Hr]; [left | exact Hp | |]; rewrite Hr; eauto.
Qed.

(** What the search returns is a folder with the name asked for, below
    the parent and within the depth limit. *)
Lemma search_found fuel p d pn r :
  search fuel p d pn = Done (Some r) ->
  name (folder r) = fname /\ paraParent r = pn
  /\ paraParentId r = default None (odict_get pn pp)
  /\ exists k, descends mbs p k (folder r) /\ within md d k.
Proof.
  revert p d. induction fuel as [|fuel IH]; intros p d; simpl; [discriminate|].
  destruct (FileEmail.too_deep md d) eqn:Ed; [discriminate|].
  intros H. apply scan_found in H as [(mb & Hmb & Hp & Hn & ->)|(c & Hc & Hp & Hr)].
  - simpl. repeat split; try assumption. exists 1%nat. split.
    + apply descends_child; assumption.
    + unfold within, FileEmail.too_deep in *. destruct md; [|exact I]. lia.
  - destruct (IH _ _ Hr) as (Hn & Hpn & Hpi & k & Hk & Hw).
    repeat split; try assumption. exists (Datatypes.S k). split.
    + eapply descends_step; eassumption.
    + unfold within in *. destruct md; [|exact I]. lia.
Qed.

(** When the search returns nothing, no folder below the parent and
    within the depth limit has the name asked for. *)
Lemma search_not_found fuel p d pn :
  search fuel p d pn = Done None ->
  forall k mb, descends mbs p k mb -> within md d k -> name mb <> fname.
Proof.
  revert p d. induction fuel as [|fuel IH]; intros p d; simpl; [discriminate|].
  destruct (FileEmail.too_deep md d) eqn:Ed.
  - intros _ k mb Hk Hw. apply descends_pos in Hk.
    unfold within, FileEmail.too_deep in *. destruct md; [lia | discriminate].
  - intros H k mb Hk Hw. destruct Hk as [mb Hmb Hp | c k mb Hc Hp Hk].
    + apply (scan_not_found _ _ _ _ H mb Hmb Hp).
    + destruct (scan_not_found _ _ _ _ H c Hc Hp) as [_ Hr].
      apply (IH _ _ Hr k mb Hk).
      unfold within in *. destruct md; [|exact I]. lia.
Qed.

(** With a depth limit the search returns within [max_depth] nested
    calls, on every list. *)
Lemma search_returns_bounded m fuel p d pn :
  md = Some m ->
  (Z.to_nat (m + 1 - d) < fuel)%nat ->
  exists r, search fuel p d pn = Done r.
Proof.
  intros Hmd. revert p d. induction fuel as [|fuel IH]; intros p d Hf; simpl; [lia|].
  destruct (FileEmail.too_deep md d) eqn:Ed; [eauto|].
  apply scan_returns. intros c _ _. apply IH.
  unfold FileEmail.too_deep in Ed. rewrite Hmd in Ed. lia.
Qed.

(** Without a limit it returns when the parent links are well founded:
    [rank] decreases from a folder to the folders under it. *)
Lemma search_returns_ranked (rank : string -> nat) fuel p d pn :
  (forall mb q, mb ∈ mbs -> parentId mb = Some q -> (rank (id mb) < rank q)%nat) ->
  (rank p < fuel)%nat ->
  exists r, search fuel p d pn = Done r.
Proof.
  intros Hrank. revert p d. induction fuel as [|fuel IH]; intros p d Hf; simpl; [lia|].
  destruct (FileEmail.too_deep md d); [eauto|].
  apply scan_returns. intros c Hc Hp. apply IH.
  specialize (Hrank c p Hc Hp). lia.
Qed.

Local Abbreviation parents := (FileEmail.search_parents mbs fname md pp).

Lemma parents_found fuel items r :
  parents fuel items = Done (Some r) ->
  exists pn pid, (pn, Some pid) ∈ items /\ search fuel pid 1 pn = Done (Some r).
Proof.
  induction items as [|[pn [pid|]] items IH]; simpl; [discriminate| |].
  - destruct (search fuel pid 1 pn) as [[r'|]|] eqn:E; try discriminate.
    + intros [= <-]. exists pn, pid. split; [left | exact E].
    + intros H. destruct (IH H) as (pn' & pid' & Hin & Hs).
      exists pn', pid'. split; [right; exact Hin | exact Hs].
  - intros H. destruct (IH H) as (pn' & pid' & Hin & Hs).
    exists pn', pid'. split; [right; exact Hin | exact Hs].
Qed.

Lemma parents_not_found fuel items :
  parents fuel items = Done None ->
  forall pn pid, (pn, Some pid) ∈ items -> search fuel pid 1 pn = Done None.
Proof.
  induction items as [|[pn [pid|]] items IH]; simpl; intros H pn' pid' Hin.
  - inversion Hin.
  - destruct (search fuel pid 1 pn) as [[r'|]|] eqn:E; try discriminate.
    inversion Hin; subst; [exact E | apply IH; assumption].
  - inversion Hin; subst. apply IH; assumption.
Qed.

Lemma parents_returns fuel items :
  (forall pn pid, (pn, Some pid) ∈ items -> exists r, search fuel pid 1 pn = Done r) ->
  exists r, parents fuel items = Done r.
Proof.
  induction items as [|[pn [pid|]] items IH]; simpl; intros H; [eauto| |].
  - assert (IH' : exists r, parents fuel items = Done r).
    { apply IH. intros pn' pid' Hin. apply H. right. exact Hin. }
    destruct (H pn pid) as [[r|] Hr]; [left | |]; rewrite Hr; eauto.
  - apply IH. intros pn' pid' Hin. apply H. right. exact Hin.
Qed.
End ResolverFacts.

Lemma odict_get_elem {V} (k : string) (v : V) (d : odict V) :
  odict_get k d = Some v -> (k, v) ∈ d.
Proof.
  induction d as [|[k' v'] d IH]; simpl; [discriminate|].
  destruct (String.eqb_spec k' k) as [->|Hne].
  - intros [= ->]. left.
  - intros H. right. apply IH, H.
Qed.

Lemma odict_elem_get {V} (k : string) (v : V) (d : odict V) :
  NoDup d.*1 -> (k, v) ∈ d -> odict_get k d = Some v.
Proof.
  induction d as [|[k' v'] d IH]; intros Hnd Hin; [inversion Hin|].
  rewrite fmap_cons in Hnd. apply NoDup_cons in Hnd as [Hk' Hnd]. simpl in *.
  inversion Hin; subst.
  - rewrite String.eqb_refl. reflexivity.
  - destruct (String.eqb_spec k' k) as [->|Hne]; [|apply IH; assumption].
    exfalso. apply Hk'. apply list_elem_of_fmap. exists (k, v). split; [reflexivity | assumption].
Qed.

Lemma para_names_NoDup : NoDup para_names.
Proof.
  unfold para_names.
  repeat apply NoDup_cons_2; try apply NoDup_nil_2;
    rewrite ?elem_of_cons, ?elem_of_nil; intuition discriminate.
Qed.

(** ** Does the recursive resolver return? *)

Lemma find_returns_bounded mbs fname m fuel :
  (Z.to_nat m < fuel)%nat ->
  exists r, FileEmail.find_folder_in_para fuel mbs fname (Some m) = Done r.
Proof.
  intros Hf. unfold FileEmail.find_folder_in_para.
  apply parents_returns. intros pn pid _.
  apply (search_returns_bounded mbs fname (Some m) _ m); [reflexivity|].
  replace (m + 1 - 1) with m by lia. exact Hf.
Qed.

Lemma find_returns_ranked mbs fname md (rank : string -> nat) fuel :
  (forall mb q, mb ∈ mbs -> parentId mb = Some q -> (rank (id mb) < rank q)%nat) ->
  (max_list ((fun mb => rank (id mb)) <$> mbs) < fuel)%nat ->
  exists r, FileEmail.find_folder_in_para fuel mbs fname md = Done r.
Proof.
  intros Hrank Hf. unfold FileEmail.find_folder_in_para.
  apply parents_returns. intros pn pid Hin.
  apply (search_returns_ranked mbs fname md _ rank); [exact Hrank|].
  apply odict_elem_get in Hin;
    [|rewrite find_para_parents_keys; apply para_names_NoDup].
  apply find_para_parents_origin in Hin as (x & Hx & _ & <-).
  assert (rank (id x) ≤ max_list ((fun mb => rank (id mb)) <$> mbs))%nat; [|lia].
  apply max_list_elem_of_le. apply list_elem_of_fmap. exists x. split; [reflexivity | exact Hx].
Qed.


Lemma chain_ranked mb q :
  mb ∈ chain -> parentId mb = Some q -> (chain_rank (id mb) < chain_rank q)%nat.
Proof.
  unfold chain. rewrite !elem_of_cons, elem_of_nil.
  intros [->|[->|[->|[->|[]]]]]; simpl; intros [= <-]; vm_compute; lia.
Qed.




(** ** Depth accounting *)

Lemma same_id_same_mailbox (mbs : list mailbox) x y :
  NoDup (id <$> mbs) -> x ∈ mbs -> y ∈ mbs -> id x = id y -> x = y.
Proof.
  induction mbs as [|mb mbs IH]; intros Hnd Hx Hy E; [inversion Hx|].
  rewrite fmap_cons in Hnd. apply NoDup_cons in Hnd as [Hmb Hnd].
  assert (Hin : forall z, z ∈ mbs -> id z ∈ id <$> mbs).
  { intros z Hz. apply list_elem_of_fmap. exists z. split; [reflexivity | exact Hz]. }
  inversion Hx; subst; inversion Hy; subst; try reflexivity.
  - exfalso. apply Hmb. rewrite E. apply Hin. assumption.
  - exfalso. apply Hmb. rewrite <- E. apply Hin. assumption.
  - apply IH; assumption.
Qed.

Lemma descends_inv mbs p k mb :
  descends mbs p k mb ->
  (k = 1%nat /\ mb ∈ mbs /\ parentId mb = Some p)
  \/ (exists c k', k = Datatypes.S k' /\ c ∈ mbs /\ parentId c = Some p
                   /\ descends mbs (id c) k' mb).
Proof.
  destruct 1 as [mb Hmb Hp | c k mb Hc Hp Hk]; [left; auto|].
  right. exists c, k. auto.
Qed.

Section Chain.
Variable mbs : list mailbox.
Variables r a b c : mailbox.
Hypothesis Hids : NoDup (id <$> mbs).
Hypothesis Ha : a ∈ mbs.
Hypothesis Hb : b ∈ mbs.
Hypothesis Hc : c ∈ mbs.
Hypothesis Hroot : odict_get (name r) (find_para_parents mbs) = Some (Some (id r)).
Hypothesis Hra : parentId a = Some (id r).
Hypothesis Hab : parentId b = Some (id a).
Hypothesis Hbc : parentId c = Some (id b).
Hypothesis Hname : forall mb, mb ∈ mbs -> name mb = name c -> mb = c.
Hypothesis Hna : name a ∉ para_names.
Hypothesis Hnb : name b ∉ para_names.

(** [c] is three links below [r]. *)
Lemma chain_descends : descends mbs (id r) 3 c.
Proof.
  apply (descends_step mbs _ a); [assumption..|].
  apply (descends_step mbs _ b); [assumption..|].
  apply descends_child; assumption.
Qed.

(** [c] is not one or two links below a PARA parent. *)
Lemma chain_not_shallow pn pid k :
  (pn, Some pid) ∈ find_para_parents mbs ->
  descends mbs pid k c -> (3 <= k)%nat.
Proof.
  intros Hin Hk.
  assert (Hpn : pn ∈ para_names).
  { rewrite <- (find_para_parents_keys mbs). apply list_elem_of_fmap.
    exists (pn, Some pid). split; [reflexivity | exact Hin]. }
  apply odict_elem_get in Hin;
    [|rewrite find_para_parents_keys; apply para_names_NoDup].
  apply find_para_parents_origin in Hin as (x & Hx & Hxn & Hxi).
  apply descends_inv in Hk as [(-> & _ & Hp)|(c1 & k1 & -> & Hc1 & Hp1 & Hk1)].
  - exfalso. apply Hnb. rewrite Hbc in Hp. injection Hp as Hp.
    rewrite (same_id_same_mailbox mbs b x Hids Hb Hx) by congruence.
    rewrite Hxn. exact Hpn.
  - apply descends_inv in Hk1 as [(-> & _ & Hp)|(c2 & k2 & -> & _ & _ & Hk2)].
    + exfalso. apply Hna. rewrite Hbc in Hp. injection Hp as Hp.
      assert (b = c1) by (apply (same_id_same_mailbox mbs); assumption). subst c1.
      rewrite Hab in Hp1. injection Hp1 as Hp1.
      rewrite (same_id_same_mailbox mbs a x Hids Ha Hx) by congruence.
      rewrite Hxn. exact Hpn.
    + apply descends_pos in Hk2. lia.
Qed.

Lemma chain_not_found fuel m :
  m <= 2 -> (Z.to_nat m < fuel)%nat ->
  FileEmail.find_folder_in_para fuel mbs (name c) (Some m) = Done None.
Proof.
  intros Hm Hf.
  destruct (find_returns_bounded mbs (name c) m fuel Hf) as [[f|] Hres];
    [exfalso | exact Hres].
  unfold FileEmail.find_folder_in_para in Hres.
  apply parents_found in Hres as (pn & pid & Hin & Hs).
  apply search_found in Hs as (Hn & _ & _ & k & Hk & Hw).
  rewrite (Hname _ (descends_in _ _ _ _ Hk) Hn) in Hk.
  apply (chain_not_shallow pn pid k Hin) in Hk.
  unfold within in Hw. lia.
Qed.

Lemma chain_found fuel md :
  within md 1 3 ->
  (exists res, FileEmail.find_folder_in_para fuel mbs (name c) md = Done res) ->
  exists f, FileEmail.find_folder_in_para fuel mbs (name c) md = Done (Some f)
            /\ folder f = c.
Proof.
  intros Hw [[f|] Hres].
  - exists f. split; [exact Hres|].
    unfold FileEmail.find_folder_in_para in Hres.
    apply parents_found in Hres as (pn & pid & Hin & Hs).
    apply search_found in Hs as (Hn & _ & _ & k & Hk & _).
    apply (Hname _ (descends_in _ _ _ _ Hk) Hn).
  - exfalso. unfold FileEmail.find_folder_in_para in Hres.
    pose proof (parents_not_found _ _ _ _ _ _ Hres (name r) (id r)
                  (odict_get_elem _ _ _ Hroot)) as Hs.
    apply (search_not_found _ _ _ _ _ _ _ _ Hs 3%nat c chain_descends Hw).
    reflexivity.
Qed.
End Chain.

(** Whatever the resolver returns under a depth limit is at most
    [max_depth] links below a PARA parent. *)
Lemma find_within fuel mbs fname m f :
  FileEmail.find_folder_in_para fuel mbs fname (Some m) = Done (Some f) ->
  exists pn pid k,
    (pn, Some pid) ∈ find_para_parents mbs
    /\ descends mbs pid k (folder f) /\ Z.of_nat k <= m.
Proof.
  unfold FileEmail.find_folder_in_para. intros H.
  apply parents_found in H as (pn & pid & Hin & Hs).
  apply search_found in Hs as (_ & _ & _ & k & Hk & Hw).
  exists pn, pid, k. unfold within in Hw. repeat split; [assumption..|lia].
Qed.

(** C2 (depth accounting, for a name that identifies the folder): in a
    list with distinct ids, let [c] be three links below the PARA parent
    [r], through [a] and [b] that do not bear a PARA name, and let no other
    folder bear the name of [c]. Then the search for that name returns
    nothing with [max_depth] 1 or 2 and returns [c] with [max_depth] 3, and
    with [None] when the parent links are well founded. Under a limit the
    folder returned is never more than [max_depth] links below a PARA
    parent. *)
Theorem C2_depth_accounting (mbs : list mailbox) (r a b c : mailbox)
    (rank : string -> nat)
    (Hids : NoDup (id <$> mbs))
    (Ha : a ∈ mbs) (Hb : b ∈ mbs) (Hc : c ∈ mbs)
    (Hroot : odict_get (name r) (find_para_parents mbs) = Some (Some (id r)))
    (Hra : parentId a = Some (id r))
    (Hab : parentId b = Some (id a))
    (Hbc : parentId c = Some (id b))
    (Hname : forall mb, mb ∈ mbs -> name mb = name c -> mb = c)
    (Hna : name a ∉ para_names) (Hnb : name b ∉ para_names) :
  (exists fuel0, forall fuel, (fuel0 <= fuel)%nat ->
     FileEmail.find_folder_in_para fuel mbs (name c) (Some 1) = Done None
     /\ FileEmail.find_folder_in_para fuel mbs (name c) (Some 2) = Done None
     /\ (exists f, FileEmail.find_folder_in_para fuel mbs (name c) (Some 3) = Done (Some f)
                   /\ folder f = c)
     /\ ((forall mb q, mb ∈ mbs -> parentId mb = Some q -> (rank (id mb) < rank q)%nat) ->
         exists f, FileEmail.find_folder_in_para fuel mbs (name c) None = Done (Some f)
                   /\ folder f = c))
  /\ (forall fuel fname m f,
        FileEmail.find_folder_in_para fuel mbs fname (Some m) = Done (Some f) ->
        exists pn pid k,
          (pn, Some pid) ∈ find_para_parents mbs
          /\ descends mbs pid k (folder f) /\ Z.of_nat k <= m).
Proof.
  split; [|intros fuel fname m f; apply find_within].
  exists (4 + max_list ((fun mb => rank (id mb)) <$> mbs))%nat. intros fuel Hf.
  split; [|split; [|split]].
  - apply (chain_not_found mbs a b c); try assumption; lia.
  - apply (chain_not_found mbs a b c); try assumption; lia.
  - apply (chain_found mbs r a b c); try assumption.
    + unfold within. lia.
    + apply find_returns_bounded. lia.
  - intros Hrank. apply (chain_found mbs r a b c); try assumption.
    + exact I.
    + apply (find_returns_ranked mbs _ None rank); [exact Hrank | lia].
Qed.

Lemma chain_unique_name mb : mb ∈ chain -> name mb = "C" -> mb = mk "c" "C" (Some "b").
Proof.
  unfold chain. rewrite !elem_of_cons, elem_of_nil.
  intros [->|[->|[->|[->|[]]]]]; simpl; intros E; try discriminate. reflexivity.
Qed.

Lemma C2_witness :
  exists fuel0, forall fuel, (fuel0 <= fuel)%nat ->
    FileEmail.find_folder_in_para fuel chain "C" (Some 1) = Done None
    /\ FileEmail.find_folder_in_para fuel chain "C" (Some 2) = Done None
    /\ (exists f, FileEmail.find_folder_in_para fuel chain "C" (Some 3) = Done (Some f)
                  /\ folder f = mk "c" "C" (Some "b"))
    /\ (exists f, FileEmail.find_folder_in_para fuel chain "C" None = Done (Some f)
                  /\ folder f = mk "c" "C" (Some "b")).
Proof.
  destruct (C2_depth_accounting chain
              (mk "r" "100_projects" None) (mk "a" "A" (Some "r"))
              (mk "b" "B" (Some "a")) (mk "c" "C" (Some "b")) chain_rank)
    as [[fuel0 H] _]; try by_computation; try reflexivity;
    try (unfold chain; repeat constructor; fail).
  - exact chain_unique_name.
  - exists fuel0. intros fuel Hf. destruct (H fuel Hf) as (H1 & H2 & H3 & H4).
    repeat split; try assumption. apply H4. exact chain_ranked.
Defined.

(** C2, as stated, fails: the list holds the chain 100_projects / A / B / C,
    and the search for "C" with [max_depth] 1 returns a folder, the
    namesake under 200_areas. *)
Lemma C2_counterexample :
  (forall mb, mb ∈ chain -> mb ∈ chain_and_namesake)
  /\ FileEmail.find_folder_in_para 5 chain_and_namesake "C" (Some 1)
     = Done (Some (Found (mk "c2" "C" (Some "s")) "200_areas" (Some "s"))).
Proof.
  split.
  - intros mb Hmb. unfold chain_and_namesake. apply elem_of_app. left. exact Hmb.
  - vm_compute. reflexivity.
Qed.

(** The runs of the script's tests [test_find_folder_with_max_depth] and
    [test_find_folder_unlimited_depth]. *)
Example test_find_folder_with_max_depth :
  FileEmail.find_folder_in_para 5 nested "Project" (Some 1)
  = Done (Some (Found (mk "mb_project" "Project" (Some "mb_100_projects"))
                      "100_projects" (Some "mb_100_projects")))
  /\ FileEmail.find_folder_in_para 5 nested "DeepFolder" (Some 1) = Done None
  /\ FileEmail.find_folder_in_para 5 nested "DeepFolder" (Some 2)
     = Done (Some (Found (mk "mb_deep" "DeepFolder" (Some "mb_project"))
                         "100_projects" (Some "mb_100_projects"))).
Proof. repeat split; vm_compute; reflexivity. Qed.

Example test_find_folder_unlimited_depth :
  FileEmail.find_folder_in_para 5 chain "C" None
  = Done (Some (Found (mk "c" "C" (Some "b")) "100_projects" (Some "r"))).
Proof. vm_compute. reflexivity. Qed.

(** A folder of the chain that bears a PARA name is itself taken as a PARA
    parent, and what is under it is then one link below a root. *)
Example chain_through_areas_found :
  FileEmail.find_folder_in_para 5 chain_through_areas "C" (Some 1)
  = Done (Some (Found (mk "c" "C" (Some "b")) "200_areas" (Some "b"))).
Proof. vm_compute. reflexivity. Qed.

(** ** The one-level resolver of the archive script *)

Lemma scan_children_found fname pn pid l f :
  ArchiveFolder.scan_children fname pn pid l = Some f ->
  folder f ∈ l /\ parentId (folder f) = Some pid /\ name (folder f) = fname
  /\ paraParent f = pn /\ paraParentId f = Some pid.
Proof.
  induction l as [|mb l IH]; simpl; [discriminate|].
  destruct (bool_decide (parentId mb = Some pid) && String.eqb (name mb) fname) eqn:E.
  - intros [= <-]. apply andb_true_iff in E as [Hp Hn].
    apply bool_decide_eq_true in Hp. apply String.eqb_eq in Hn.
    simpl. repeat split; try assumption. left.
  - intros H. destruct (IH H) as (Hin & Hrest). split; [right; exact Hin | exact Hrest].
Qed.

Lemma scan_children_none fname pn pid l :
  ArchiveFolder.scan_children fname pn pid l = None ->
  forall mb, mb ∈ l -> parentId mb = Some pid -> name mb <> fname.
Proof.
  induction l as [|x l IH]; simpl; intros H mb Hmb Hp; [inversion Hmb|].
  destruct (bool_decide (parentId x = Some pid) && String.eqb (name x) fname) eqn:E;
    [discriminate|].
  inversion Hmb; subst; [|apply IH; assumption].
  apply andb_false_iff in E as [E|E].
  - apply bool_decide_eq_false in E. contradiction.
  - apply String.eqb_neq in E. exact E.
Qed.

Lemma archive_parents_found mbs fname items f :
  ArchiveFolder.scan_parents mbs fname items = Some f ->
  exists pn pid, (pn, Some pid) ∈ items
    /\ ArchiveFolder.scan_children fname pn pid mbs = Some f.
Proof.
  induction items as [|[pn [pid|]] items IH]; simpl; [discriminate| |].
  - destruct (ArchiveFolder.scan_children fname pn pid mbs) as [f'|] eqn:E.
    + intros [= <-]. exists pn, pid. split; [left | exact E].
    + intros H. destruct (IH H) as (pn' & pid' & Hin & Hs).
      exists pn', pid'. split; [right; exact Hin | exact Hs].
  - intros H. destruct (IH H) as (pn' & pid' & Hin & Hs).
    exists pn', pid'. split; [right; exact Hin | exact Hs].
Qed.

(** Whatever the one-level resolver returns is an immediate child, with the
    name asked for, of the PARA parent it is annotated with. *)
Lemma archive_find_sound mbs fname f :
  ArchiveFolder.find_folder_in_para mbs fname = Some f ->
  folder f ∈ mbs /\ name (folder f) = fname
  /\ parentId (folder f) = paraParentId f
  /\ (paraParent f, paraParentId f) ∈ find_para_parents mbs.
Proof.
  unfold ArchiveFolder.find_folder_in_para. intros H.
  apply archive_parents_found in H as (pn & pid & Hin & Hs).
  apply scan_children_found in Hs as (Hf & Hp & Hn & -> & ->).
  repeat split; assumption.
Qed.

(** C3 (for names that identify the folder): let [rid] be the PARA parent
    the resolver keeps for 100_projects, [c] a child of it whose name no
    other child of it bears, and [g] a child of [c]; when ids are distinct,
    [c] does not bear a PARA name and no other folder bears the name of
    [g], the search for the name of [c] returns [c] annotated with
    100_projects and [rid], and the search for the name of [g] returns
    nothing. Whatever is returned is an immediate child of a PARA parent. *)
Theorem C3_archive_one_level (mbs : list mailbox) (rid : string) (c g : mailbox)
    (Hids : NoDup (id <$> mbs))
    (Hroot : odict_get "100_projects" (find_para_parents mbs) = Some (Some rid))
    (Hc : c ∈ mbs) (Hpc : parentId c = Some rid)
    (Hg : g ∈ mbs) (Hpg : parentId g = Some (id c))
    (Hcname : forall mb, mb ∈ mbs -> parentId mb = Some rid -> name mb = name c -> mb = c)
    (Hgname : forall mb, mb ∈ mbs -> name mb = name g -> mb = g)
    (Hnc : name c ∉ para_names) :
  ArchiveFolder.find_folder_in_para mbs (name c)
  = Some (Found c "100_projects" (Some rid))
  /\ ArchiveFolder.find_folder_in_para mbs (name g) = None
  /\ (forall fname f,
        ArchiveFolder.find_folder_in_para mbs fname = Some f ->
        folder f ∈ mbs /\ name (folder f) = fname
        /\ parentId (folder f) = paraParentId f
        /\ (paraParent f, paraParentId f) ∈ find_para_parents mbs).
Proof.
  split; [|split; [|apply archive_find_sound]].
  - unfold ArchiveFolder.find_folder_in_para.
    destruct (find_para_parents_items mbs) as (v1 & v2 & v3 & Hitems).
    rewrite Hitems in Hroot |- *. simpl in Hroot. injection Hroot as ->.
    cbn [ArchiveFolder.scan_parents].
    destruct (ArchiveFolder.scan_children (name c) "100_projects" rid mbs) as [f|] eqn:E.
    + apply scan_children_found in E as (Hf & Hp & Hn & Hpn & Hpi).
      destruct f as [mb pn pi]. simpl in *. subst pn pi.
      rewrite (Hcname mb Hf Hp Hn). reflexivity.
    + exfalso. apply (scan_children_none _ _ _ _ E c Hc Hpc). reflexivity.
  - destruct (ArchiveFolder.find_folder_in_para mbs (name g)) as [f|] eqn:E; [|reflexivity].
    exfalso. apply archive_find_sound in E as (Hf & Hn & Hp & Hin).
    rewrite (Hgname _ Hf Hn) in Hp. rewrite Hpg in Hp.
    assert (Hpn : paraParent f ∈ para_names).
    { rewrite <- (find_para_parents_keys mbs). apply list_elem_of_fmap.
      exists (paraParent f, paraParentId f). split; [reflexivity | exact Hin]. }
    rewrite <- Hp in Hin.
    apply odict_elem_get in Hin;
      [|rewrite find_para_parents_keys; apply para_names_NoDup].
    apply find_para_parents_origin in Hin as (x & Hx & Hxn & Hxi).
    apply Hnc. rewrite (same_id_same_mailbox mbs c x Hids Hc Hx) by congruence.
    rewrite Hxn. exact Hpn.
Qed.

Lemma nested_child_unique mb :
  mb ∈ nested -> parentId mb = Some "mb_100_projects" -> name mb = "Project" ->
  mb = mk "mb_project" "Project" (Some "mb_100_projects").
Proof.
  unfold nested. rewrite !elem_of_cons, elem_of_nil.
  intros [->|[->|[->|[]]]]; simpl; intros Hp E; try discriminate. reflexivity.
Qed.

Lemma nested_deep_unique mb :
  mb ∈ nested -> name mb = "DeepFolder" -> mb = mk "mb_deep" "DeepFolder" (Some "mb_project").
Proof.
  unfold nested. rewrite !elem_of_cons, elem_of_nil.
  intros [->|[->|[->|[]]]]; simpl; intros E; try discriminate. reflexivity.
Qed.

Lemma C3_witness :
  ArchiveFolder.find_folder_in_para nested "Project"
  = Some (Found (mk "mb_project" "Project" (Some "mb_100_projects"))
                "100_projects" (Some "mb_100_projects"))
  /\ ArchiveFolder.find_folder_in_para nested "DeepFolder" = None.
Proof.
  refine (let H := C3_archive_one_level nested "mb_100_projects"
              (mk "mb_project" "Project" (Some "mb_100_projects"))
              (mk "mb_deep" "DeepFolder" (Some "mb_project")) _ _ _ _ _ _ _ _ _ in
          conj (proj1 H) (proj1 (proj2 H))).
  - by_computation.
  - reflexivity.
  - unfold nested. repeat constructor.
  - reflexivity.
  - unfold nested. repeat constructor.
  - reflexivity.
  - exact nested_child_unique.
  - exact nested_deep_unique.
  - by_computation.
Defined.

(** C3, as stated, fails: Receipts is a grandchild of 100_projects, under
    its child Work, and the search for its name returns a folder, the
    namesake that is an immediate child of 200_areas. *)
Lemma C3_counterexample :
  odict_get "100_projects" (find_para_parents receipts) = Some (Some "r")
  /\ parentId (mk "w" "Work" (Some "r")) = Some "r"
  /\ parentId (mk "g" "Receipts" (Some "w")) = Some (id (mk "w" "Work" (Some "r")))
  /\ ArchiveFolder.find_folder_in_para receipts "Receipts"
     = Some (Found (mk "g2" "Receipts" (Some "s")) "200_areas" (Some "s")).
Proof. repeat split; vm_compute; reflexivity. Qed.

(** ** The order of the recursive search *)

Lemma head_app {A} (l1 l2 : list A) :
  head (l1 ++ l2) = match head l1 with Some x => Some x | None => head l2 end.
Proof. destruct l1; reflexivity. Qed.

Section Refinement.
Variable mbs : list mailbox.
Variable fname : string.
Variable md : option Z.
Variable pp : odict (option string).

Local Abbreviation named := (fun mb : mailbox => name mb = fname).
Local Abbreviation annotate pn := (fun mb => Found mb pn (default None (odict_get pn pp))).

Lemma scan_visit_all recurse visit p pn l seq :
  (forall c below, visit c = Some below ->
      recurse c = Done (annotate pn <$> head (filter named below))) ->
  visit_all visit (filter (fun mb => parentId mb = Some p) l) = Some seq ->
  FileEmail.scan fname pp recurse p pn l
  = Done (annotate pn <$> head (filter named seq)).
Proof.
  intros Hrec. revert seq. induction l as [|mb l IH]; intros seq; simpl.
  - intros [= <-]. reflexivity.
  - rewrite filter_cons. case_bool_decide as Hp.
    + rewrite decide_True by exact Hp. simpl.
      destruct (visit mb) as [below|] eqn:Ev; [|discriminate].
      destruct (visit_all visit _) as [rest|] eqn:Er; [|discriminate].
      intros [= <-]. rewrite filter_cons.
      destruct (String.eqb_spec (name mb) fname) as [Hn|Hn].
      * rewrite decide_True by exact Hn. reflexivity.
      * rewrite decide_False by exact Hn.
        rewrite filter_app, head_app, (Hrec mb below Ev).
        destruct (head (filter named below)); [reflexivity|].
        simpl. apply IH. reflexivity.
    + rewrite decide_False by exact Hp. apply IH.
Qed.

Lemma search_preorder fuel p d pn seq :
  preorder mbs md fuel p d = Some seq ->
  FileEmail.search_descendants mbs fname md pp fuel p d pn
  = Done (annotate pn <$> head (filter named seq)).
Proof.
  revert p d seq. induction fuel as [|fuel IH]; intros p d seq; simpl; [discriminate|].
  destruct (FileEmail.too_deep md d).
  - intros [= <-]. reflexivity.
  - apply scan_visit_all. intros c below. apply IH.
Qed.
End Refinement.

Lemma head_filter_annotated (fname pn : string) (pi : option string) (l : list mailbox) :
  head (filter (fun f => name (folder f) = fname) (map (fun mb => Found mb pn pi) l))
  = (fun mb => Found mb pn pi) <$> head (filter (fun mb => name mb = fname) l).
Proof.
  induction l as [|mb l IH]; [reflexivity|].
  cbn [map]. rewrite !filter_cons. simpl.
  destruct (decide (name mb = fname)); [reflexivity | exact IH].
Qed.

Lemma parents_traversal mbs fname md pp fuel items seq :
  (forall k v, (k, v) ∈ items -> odict_get k pp = Some v) ->
  traversal_from mbs md fuel pp items.*1 = Some seq ->
  FileEmail.search_parents mbs fname md pp fuel items
  = Done (head (filter (fun f => name (folder f) = fname) seq)).
Proof.
  revert seq. induction items as [|[pn v] items IH]; intros seq Hpp.
  - simpl. intros [= <-]. reflexivity.
  - assert (Hrest : forall k v', (k, v') ∈ items -> odict_get k pp = Some v').
    { intros k v' Hin. apply Hpp. right. exact Hin. }
    rewrite fmap_cons. cbn [traversal_from FileEmail.search_parents fst].
    rewrite (Hpp pn v) by left.
    destruct v as [pid|]; [|apply IH, Hrest].
    destruct (preorder mbs md fuel pid 1) as [below|] eqn:Eb; [|discriminate].
    destruct (traversal_from mbs md fuel pp items.*1) as [rest|] eqn:Er; [|discriminate].
    intros [= <-].
    rewrite (search_preorder mbs fname md pp fuel pid 1 pn below Eb).
    rewrite filter_app, head_app.
    rewrite (head_filter_annotated fname pn (Some pid) below).
    rewrite (Hpp pn (Some pid)) by left.
    destruct (head (filter (fun mb => name mb = fname) below)); [reflexivity|].
    simpl. apply (IH rest Hrest). reflexivity.
Qed.

(** The resolver returns the first folder, in the order of visit, that has
    the name asked for. *)
Lemma find_traversal fuel mbs fname md seq :
  traversal mbs md fuel = Some seq ->
  FileEmail.find_folder_in_para fuel mbs fname md
  = Done (head (filter (fun f => name (folder f) = fname) seq)).
Proof.
  unfold traversal, FileEmail.find_folder_in_para. intros H.
  apply parents_traversal.
  - intros k v Hin. apply odict_elem_get; [|exact Hin].
    rewrite find_para_parents_keys. apply para_names_NoDup.
  - rewrite find_para_parents_keys. exact H.
Qed.

(** *** The search does not read [sortOrder] *)

Lemma find_para_parents_sortOrder g mbs :
  find_para_parents (with_sortOrder g <$> mbs) = find_para_parents mbs.
Proof.
  rewrite !find_para_parents_fold. generalize para_parents_init.
  induction mbs as [|mb mbs IH]; intros d; [reflexivity|].
  rewrite fmap_cons. simpl. apply IH.
Qed.

Section SortOrder.
Variable g : mailbox -> Z.
Variable fname : string.
Variable md : option Z.
Variable pp : odict (option string).

Lemma scan_sortOrder recurse recurse' p pn l :
  (forall c, recurse' (with_sortOrder g c) = outcome_map (found_with_sortOrder g) (recurse c)) ->
  FileEmail.scan fname pp recurse' p pn (with_sortOrder g <$> l)
  = outcome_map (found_with_sortOrder g) (FileEmail.scan fname pp recurse p pn l).
Proof.
  intros Hrec. induction l as [|mb l IH]; [reflexivity|].
  rewrite fmap_cons. cbn [FileEmail.scan with_sortOrder parentId name].
  case_bool_decide; [|exact IH].
  destruct (String.eqb (name mb) fname); [reflexivity|].
  fold (with_sortOrder g mb). rewrite Hrec.
  destruct (recurse mb) as [[r|]|]; try reflexivity. exact IH.
Qed.

Lemma search_sortOrder mbs fuel p d pn :
  FileEmail.search_descendants (with_sortOrder g <$> mbs) fname md pp fuel p d pn
  = outcome_map (found_with_sortOrder g)
      (FileEmail.search_descendants mbs fname md pp fuel p d pn).
Proof.
  revert p d. induction fuel as [|fuel IH]; intros p d; [reflexivity|].
  cbn [FileEmail.search_descendants].
  destruct (FileEmail.too_deep md d); [reflexivity|].
  apply scan_sortOrder. intros c. apply IH.
Qed.

Lemma parents_sortOrder mbs fuel items :
  FileEmail.search_parents (with_sortOrder g <$> mbs) fname md pp fuel items
  = outcome_map (found_with_sortOrder g)
      (FileEmail.search_parents mbs fname md pp fuel items).
Proof.
  induction items as [|[pn [pid|]] items IH]; [reflexivity| |exact IH].
  cbn [FileEmail.search_parents]. rewrite search_sortOrder.
  destruct (FileEmail.search_descendants mbs fname md pp fuel pid 1 pn) as [[r|]|];
    try reflexivity. exact IH.
Qed.
End SortOrder.

(** Changing the [sortOrder] of the folders changes nothing in what the
    resolver finds, but the [sortOrder] the folder found carries. *)
Lemma find_sortOrder g fuel mbs fname md :
  FileEmail.find_folder_in_para fuel (with_sortOrder g <$> mbs) fname md
  = outcome_map (found_with_sortOrder g) (FileEmail.find_folder_in_para fuel mbs fname md).
Proof.
  unfold FileEmail.find_folder_in_para.
  rewrite find_para_parents_sortOrder. apply parents_sortOrder.
Qed.

Lemma scan_first_child fname pp recurse p pn l1 mb l2 :
  (forall x, x ∈ l1 -> parentId x <> Some p) ->
  parentId mb = Some p -> name mb = fname ->
  FileEmail.scan fname pp recurse p pn (l1 ++ mb :: l2)
  = Done (Some (Found mb pn (default None (odict_get pn pp)))).
Proof.
  intros Hl1 Hp Hn. induction l1 as [|x l1 IH]; simpl.
  - rewrite bool_decide_eq_true_2 by exact Hp.
    rewrite (proj2 (String.eqb_eq _ _) Hn). reflexivity.
  - rewrite bool_decide_eq_false_2 by (apply Hl1; left).
    apply IH. intros y Hy. apply Hl1. right. exact Hy.
Qed.

(** When the first child of the 100_projects root in the list has the name
    asked for, the resolver returns it with no nested call at all. *)
Lemma first_child_returns_at_once mbs fname md rid l1 mb l2 :
  mbs = l1 ++ mb :: l2 ->
  odict_get "100_projects" (find_para_parents mbs) = Some (Some rid) ->
  (forall x, x ∈ l1 -> parentId x <> Some rid) ->
  parentId mb = Some rid -> name mb = fname ->
  FileEmail.too_deep md 1 = false ->
  FileEmail.find_folder_in_para 1 mbs fname md
  = Done (Some (Found mb "100_projects" (Some rid))).
Proof.
  intros Hsplit Hroot Hl1 Hp Hn Hd.
  assert (Hgen : forall pp items,
    FileEmail.search_parents mbs fname md pp 1 (("100_projects", Some rid) :: items)
    = Done (Some (Found mb "100_projects" (default None (odict_get "100_projects" pp))))).
  { intros pp items. cbn [FileEmail.search_parents FileEmail.search_descendants].
    rewrite Hd, Hsplit.
    rewrite (scan_first_child fname pp _ rid "100_projects" l1 mb l2 Hl1 Hp Hn).
    reflexivity. }
  unfold FileEmail.find_folder_in_para.
  destruct (find_para_parents_items mbs) as (v1 & v2 & v3 & Hitems).
  assert (Hv1 : v1 = Some rid).
  { rewrite Hitems in Hroot. simpl in Hroot. congruence. }
  subst v1.
  transitivity (FileEmail.search_parents mbs fname md (find_para_parents mbs) 1
                  [("100_projects", Some rid); ("200_areas", v2); ("300_resources", v3)]).
  - f_equal. exact Hitems.
  - rewrite Hgen, Hroot. reflexivity.
Qed.

(** C5: the keys of [para_parents] are iterated in the order 100_projects,
    200_areas, 300_resources; the resolver returns the first folder with
    the name asked for in the order of visit (roots in that order, the
    children of a folder in the order of the flat list, each followed by
    what is under it); the [sortOrder] of the folders has no part in it; and
    a first child that matches is returned without a single nested call,
    whatever siblings and roots come after it. *)
Theorem C5_traversal_order (mbs : list mailbox) (fname : string) (md : option Z)
    (fuel : nat) (seq : list found)
    (Hseq : traversal mbs md fuel = Some seq) :
  (find_para_parents mbs).*1 = ["100_projects"; "200_areas"; "300_resources"]
  /\ FileEmail.find_folder_in_para fuel mbs fname md
     = Done (head (filter (fun f => name (folder f) = fname) seq))
  /\ (forall g : mailbox -> Z,
        FileEmail.find_folder_in_para fuel (with_sortOrder g <$> mbs) fname md
        = Done (found_with_sortOrder g
                  <$> head (filter (fun f => name (folder f) = fname) seq)))
  /\ (forall rid l1 mb l2,
        mbs = l1 ++ mb :: l2 ->
        odict_get "100_projects" (find_para_parents mbs) = Some (Some rid) ->
        (forall x, x ∈ l1 -> parentId x <> Some rid) ->
        parentId mb = Some rid -> name mb = fname ->
        FileEmail.too_deep md 1 = false ->
        FileEmail.find_folder_in_para 1 mbs fname md
        = Done (Some (Found mb "100_projects" (Some rid)))).
Proof.
  split; [apply find_para_parents_keys|].
  split; [apply find_traversal, Hseq|].
  split.
  - intros g. rewrite find_sortOrder, (find_traversal fuel mbs fname md seq Hseq).
    reflexivity.
  - intros rid l1 mb l2. apply first_child_returns_at_once.
Qed.

Lemma C5_witness :
  traversal sample_mailboxes None 3 = Some [sample_project; sample_area]
  /\ FileEmail.find_folder_in_para 3 sample_mailboxes "Team Management" None
     = Done (Some sample_area).
Proof.
  split; [vm_compute; reflexivity|].
  exact (proj1 (proj2 (C5_traversal_order sample_mailboxes "Team Management" None 3
                         [sample_project; sample_area] eq_refl))).
Defined.

(** ** Creating a folder and looking it up *)

Lemma create_folder_store c p n s l :
  is_Some (client c) ->
  create_folder Store.serve c p n (World s l)
  = (inr (NewFolder ("M" +:+ pretty (Store.next_id s)) n p),
     World {| Store.mailboxes :=
                Store.mailboxes s
                ++ [Mailbox ("M" +:+ pretty (Store.next_id s)) n None 0 (Some p) 0 0 0 0];
              Store.emails := Store.emails s;
              Store.next_id := Datatypes.S (Store.next_id s) |}
           (l ++ [MailboxSet_create n p])).
Proof.
  intros [u Hu]. unfold create_folder, send. rewrite Hu. simpl.
  unfold check_created, has_not_created, has_created, truthy_map. simpl.
  rewrite bool_decide_eq_false_2.
  - rewrite lookup_singleton_eq. reflexivity.
  - intros Hempty. apply (f_equal (fun m => m !! "new-folder")) in Hempty.
    rewrite lookup_singleton_eq, lookup_empty in Hempty. discriminate.
Qed.

(** C9 (for a name that no folder matches when case is ignored): on the
    mail store [create_folder] returns the id, name and parent of the
    folder made, and [get_mailbox_by_name] of that name then returns that
    folder, whose parent is the one given. *)
Theorem C9_create_then_lookup (lower : string -> string) (c : JMAPClient)
    (p n : string) (s : Store.store)
    (Hc : is_Some (client c))
    (Hfree : forall mb, mb ∈ Store.mailboxes s -> lower (name mb) <> lower n) :
  exists i w1 mb w2,
    create_folder Store.serve c p n (World s []) = (inr (NewFolder i n p), w1)
    /\ get_mailbox_by_name Store.serve lower c n w1 = (inr (Some mb), w2)
    /\ id mb = i /\ name mb = n /\ parentId mb = Some p.
Proof.
  exists ("M" +:+ pretty (Store.next_id s)). eexists.
  exists (Mailbox ("M" +:+ pretty (Store.next_id s)) n None 0 (Some p) 0 0 0 0).
  eexists. split; [apply create_folder_store, Hc|].
  destruct Hc as [u Hu].
  unfold get_mailbox_by_name, get_mailboxes, send. rewrite Hu. simpl.
  rewrite (first_named_first lower (lower n) (Store.mailboxes s)
             (Mailbox ("M" +:+ pretty (Store.next_id s)) n None 0 (Some p) 0 0 0 0)
             [] Hfree eq_refl).
  repeat split.
Qed.

Lemma C9_witness :
  exists i w1 mb w2,
    create_folder Store.serve connected "mb_100_projects" "Plans" (World store_with_work [])
    = (inr (NewFolder i "Plans" "mb_100_projects"), w1)
    /\ get_mailbox_by_name Store.serve str_lower connected "Plans" w1 = (inr (Some mb), w2)
    /\ id mb = i /\ name mb = "Plans" /\ parentId mb = Some "mb_100_projects".
Proof.
  apply (C9_create_then_lookup str_lower connected "mb_100_projects" "Plans" store_with_work).
  - exists (). reflexivity.
  - unfold store_with_work. simpl. intros mb Hmb.
    apply list_elem_of_singleton in Hmb as ->. vm_compute. discriminate.
Defined.

(** C9, as stated, fails: no folder is named "Work", the folder is created
    under 100_projects, and the lookup of "Work" returns the older folder
    "work", whose parent is another one. *)
Lemma C9_counterexample :
  (forall mb, mb ∈ Store.mailboxes store_with_work -> name mb <> "Work")
  /\ exists i w1 w2,
       create_folder Store.serve connected "mb_100_projects" "Work" (World store_with_work [])
       = (inr (NewFolder i "Work" "mb_100_projects"), w1)
       /\ get_mailbox_by_name Store.serve str_lower connected "Work" w1
          = (inr (Some (mk "w1" "work" (Some "q"))), w2)
       /\ parentId (mk "w1" "work" (Some "q")) <> Some "mb_100_projects".
Proof.
  split.
  - unfold store_with_work. simpl. intros mb Hmb.
    apply list_elem_of_singleton in Hmb as ->. discriminate.
  - eexists _, _, _. split; [apply create_folder_store; exists (); reflexivity|].
    split; [vm_compute; reflexivity | discriminate].
Qed.

(** * Further properties of the scripts *)

(** ** The two resolvers side by side *)

Lemma scan_one_level fname pp recurse p pn l :
  (forall c, recurse c = Done None) ->
  odict_get pn pp = Some (Some p) ->
  FileEmail.scan fname pp recurse p pn l
  = Done (ArchiveFolder.scan_children fname pn p l).
Proof.
  intros Hrec Hpp. induction l as [|mb l IH]; simpl; [reflexivity|].
  case_bool_decide as Hp; simpl; [|exact IH].
  destruct (String.eqb (name mb) fname).
  - rewrite Hpp. reflexivity.
  - rewrite Hrec. exact IH.
Qed.

Lemma parents_one_level mbs fname pp fuel items :
  (forall k v, (k, v) ∈ items -> odict_get k pp = Some v) ->
  FileEmail.search_parents mbs fname (Some 1) pp (Datatypes.S (Datatypes.S fuel)) items
  = Done (ArchiveFolder.scan_parents mbs fname items).
Proof.
  induction items as [|[pn [pid|]] items IH]; intros Hpp; [reflexivity| |].
  - cbn [FileEmail.search_parents ArchiveFolder.scan_parents].
    cbn [FileEmail.search_descendants]. unfold FileEmail.too_deep at 1.
    replace (1 <? 1) with false by reflexivity.
    rewrite (scan_one_level fname pp _ pid pn mbs);
      [|intros c; reflexivity | apply Hpp; left].
    destruct (ArchiveFolder.scan_children fname pn pid mbs); [reflexivity|].
    apply IH. intros k v Hin. apply Hpp. right. exact Hin.
  - cbn [FileEmail.search_parents ArchiveFolder.scan_parents].
    apply IH. intros k v Hin. apply Hpp. right. exact Hin.
Qed.

(** X1: with [max_depth=1] the recursive resolver of the filing script
    returns what the one-level resolver of the archive script returns, the
    same folder with the same annotations, on every folder list. *)
Theorem X1_depth_one_is_archive_search (mbs : list mailbox) (fname : string) (fuel : nat) :
  FileEmail.find_folder_in_para (Datatypes.S (Datatypes.S fuel)) mbs fname (Some 1)
  = Done (ArchiveFolder.find_folder_in_para mbs fname).
Proof.
  unfold FileEmail.find_folder_in_para, ArchiveFolder.find_folder_in_para.
  apply parents_one_level. intros k v Hin.
  apply odict_elem_get; [|exact Hin].
  rewrite find_para_parents_keys. apply para_names_NoDup.
Qed.

Lemma descends_has_parent mbs p k mb :
  descends mbs p k mb -> exists q, parentId mb = Some q.
Proof.
  intros H. induction H; [eauto | assumption].
Qed.

(** X2: a folder the recursive resolver returns is in the list, has the
    name asked for and has a parent; it is annotated with one of the three
    PARA names and with the id of a folder of the list that bears this
    name, below which it lies. A folder without parent, or one outside the
    three PARA subtrees, is never returned. *)
Theorem X2_found_is_under_a_para_root (mbs : list mailbox) (fname : string)
    (md : option Z) (fuel : nat) (f : found)
    (Hfound : FileEmail.find_folder_in_para fuel mbs fname md = Done (Some f)) :
  folder f ∈ mbs /\ name (folder f) = fname
  /\ parentId (folder f) <> None
  /\ paraParent f ∈ para_names
  /\ exists root k,
       root ∈ mbs /\ name root = paraParent f /\ paraParentId f = Some (id root)
       /\ descends mbs (id root) k (folder f) /\ within md 1 k.
Proof.
  unfold FileEmail.find_folder_in_para in Hfound.
  apply parents_found in Hfound as (pn & pid & Hin & Hs).
  apply search_found in Hs as (Hn & Hpn & Hpi & k & Hk & Hw).
  assert (Hkey : pn ∈ para_names).
  { rewrite <- (find_para_parents_keys mbs). apply list_elem_of_fmap.
    exists (pn, Some pid). split; [reflexivity | exact Hin]. }
  apply odict_elem_get in Hin;
    [|rewrite find_para_parents_keys; apply para_names_NoDup].
  rewrite Hin in Hpi. simpl in Hpi.
  apply find_para_parents_origin in Hin as (root & Hroot & Hrn & Hri).
  split; [exact (descends_in _ _ _ _ Hk)|]. split; [exact Hn|].
  split. { destruct (descends_has_parent _ _ _ _ Hk) as [q Hq]. congruence. }
  split; [rewrite Hpn; exact Hkey|].
  exists root, k. rewrite Hri. repeat split; try assumption; congruence.
Qed.

Lemma X2_witness :
  paraParent sample_area ∈ para_names
  /\ parentId (folder sample_area) <> None.
Proof.
  pose proof (X2_found_is_under_a_para_root sample_mailboxes "Team Management"
                None 3 sample_area eq_refl) as (_ & _ & Hp & Hk & _).
  split; assumption.
Defined.

Lemma find_nothing_below_one mbs fname m fuel :
  m <= 0 ->
  FileEmail.find_folder_in_para (Datatypes.S fuel) mbs fname (Some m) = Done None.
Proof.
  intros Hm. unfold FileEmail.find_folder_in_para.
  generalize (find_para_parents mbs) at 2. intros items.
  induction items as [|[pn [pid|]] items IH]; [reflexivity| |exact IH].
  cbn [FileEmail.search_parents FileEmail.search_descendants].
  unfold FileEmail.too_deep at 1.
  replace (m <? 1) with true by (symmetry; apply Z.ltb_lt; lia).
  exact IH.
Qed.

(** X3: the depth limit. With [max_depth] below 1 the recursive resolver
    finds nothing, whatever the list; and a name it finds within a limit is
    found, in some folder of that name, within every larger limit. *)
Theorem X3_depth_limit_is_monotone (mbs : list mailbox) (fname : string)
    (m m' : Z) (fuel fuel' : nat) (f : found)
    (Hfound : FileEmail.find_folder_in_para fuel mbs fname (Some m) = Done (Some f))
    (Hle : m <= m') (Hfuel : (Z.to_nat m' < fuel')%nat) :
  (exists f', FileEmail.find_folder_in_para fuel' mbs fname (Some m') = Done (Some f')
              /\ name (folder f') = fname)
  /\ 1 <= m
  /\ (forall m0 fuel0, m0 <= 0 ->
        FileEmail.find_folder_in_para (Datatypes.S fuel0) mbs fname (Some m0) = Done None).
Proof.
  assert (Hdeep : exists pn pid k,
             (pn, Some pid) ∈ find_para_parents mbs
             /\ descends mbs pid k (folder f) /\ within (Some m) 1 k
             /\ name (folder f) = fname).
  { unfold FileEmail.find_folder_in_para in Hfound.
    apply parents_found in Hfound as (pn & pid & Hin & Hs).
    apply search_found in Hs as (Hn & _ & _ & k & Hk & Hw).
    exists pn, pid, k. auto. }
  destruct Hdeep as (pn & pid & k & Hin & Hk & Hw & Hn).
  split; [|split].
  - destruct (find_returns_bounded mbs fname m' fuel' Hfuel) as [[f'|] Hres].
    + exists f'. split; [exact Hres|].
      unfold FileEmail.find_folder_in_para in Hres.
      apply parents_found in Hres as (pn' & pid' & _ & Hs).
      apply search_found in Hs as (Hn' & _). exact Hn'.
    + exfalso. unfold FileEmail.find_folder_in_para in Hres.
      pose proof (parents_not_found _ _ _ _ _ _ Hres pn pid Hin) as Hs.
      apply (search_not_found _ _ _ _ _ _ _ _ Hs k (folder f) Hk); [|exact Hn].
      unfold within in *. lia.
  - apply descends_pos in Hk. unfold within in Hw. lia.
  - intros m0 fuel0. apply find_nothing_below_one.
Qed.

Lemma X3_witness :
  exists f', FileEmail.find_folder_in_para 9 chain "C" (Some 7) = Done (Some f')
             /\ name (folder f') = "C".
Proof.
  refine (proj1 (X3_depth_limit_is_monotone chain "C" 3 7 5 9
                   (Found (mk "c" "C" (Some "b")) "100_projects" (Some "r")) _ _ _)).
  - vm_compute. reflexivity.
  - lia.
  - vm_compute. lia.
Defined.

Lemma archive_parents_none mbs fname items :
  ArchiveFolder.scan_parents mbs fname items = None <->
  forall pn pid, (pn, Some pid) ∈ items ->
    ArchiveFolder.scan_children fname pn pid mbs = None.
Proof.
  induction items as [|[pn [pid|]] items IH]; simpl.
  - split; [|reflexivity]. intros _ pn pid Hin. inversion Hin.
  - destruct (ArchiveFolder.scan_children fname pn pid mbs) as [f|] eqn:E.
    + split; [discriminate|]. intros H. specialize (H pn pid). rewrite E in H.
      apply H. left.
    + rewrite IH. split.
      * intros H pn' pid' Hin. inversion Hin; subst; [exact E | apply H; assumption].
      * intros H pn' pid' Hin. apply H. right. exact Hin.
  - rewrite IH. split.
    + intros H pn' pid' Hin. inversion Hin; subst. apply H. assumption.
    + intros H pn' pid' Hin. apply H. right. exact Hin.
Qed.

Lemma scan_children_none_iff fname pn pid l :
  ArchiveFolder.scan_children fname pn pid l = None <->
  forall mb, mb ∈ l -> parentId mb = Some pid -> name mb <> fname.
Proof.
  split; [apply scan_children_none|].
  induction l as [|x l IH]; simpl; intros H; [reflexivity|].
  destruct (bool_decide (parentId x = Some pid) && String.eqb (name x) fname) eqn:E.
  - exfalso. apply andb_true_iff in E as [Hp Hn].
    apply bool_decide_eq_true in Hp. apply String.eqb_eq in Hn.
    apply (H x); [left | exact Hp | exact Hn].
  - apply IH. intros mb Hmb. apply H. right. exact Hmb.
Qed.

(** X4: the one-level resolver of the archive script returns nothing
    exactly when no folder of the list that has the name asked for is an
    immediate child of a PARA parent it keeps. *)
Theorem X4_archive_not_found_iff (mbs : list mailbox) (fname : string) :
  ArchiveFolder.find_folder_in_para mbs fname = None <->
  forall pn pid mb,
    odict_get pn (find_para_parents mbs) = Some (Some pid) ->
    mb ∈ mbs -> parentId mb = Some pid -> name mb <> fname.
Proof.
  unfold ArchiveFolder.find_folder_in_para. rewrite archive_parents_none.
  assert (Hnd : NoDup (find_para_parents mbs).*1)
    by (rewrite find_para_parents_keys; apply para_names_NoDup).
  split.
  - intros H pn pid mb Hget. revert mb.
    apply (proj1 (scan_children_none_iff fname pn pid mbs)). apply H.
    apply odict_get_elem, Hget.
  - intros H pn pid Hin. apply (proj2 (scan_children_none_iff fname pn pid mbs)).
    intros mb. apply (H pn pid mb). apply odict_elem_get; assumption.
Qed.

(** ** Errors of the operations *)

(** X5: on a client that [connect()] has not been run on, every operation
    raises the same [ValueError] and sends nothing to the server. *)
Theorem X5_not_connected_sends_nothing {S : Type} (serve : request -> S -> reply * S)
    (lower : string -> string) (c : JMAPClient) (w : world)
    (Hnone : client c = None) :
  get_mailboxes serve c w = (inl not_connected, w)
  /\ (forall n, get_mailbox_by_name serve lower c n w = (inl not_connected, w))
  /\ (forall e, get_email_info serve c e w = (inl not_connected, w))
  /\ (forall e z copy, file_email serve c e z copy w = (inl not_connected, w))
  /\ (forall p n, create_folder serve c p n w = (inl not_connected, w))
  /\ (forall f a, move_folder_to_archive serve c f a w = (inl not_connected, w)).
Proof.
  unfold get_mailbox_by_name, get_mailboxes, get_email_info, file_email,
    create_folder, move_folder_to_archive.
  rewrite Hnone. repeat split.
Qed.

Lemma X5_witness :
  file_email Store.serve {| host := "h"; api_token := "t"; client := None |}
    "email_123" "Z" true (World (store_with "email_123" ∅) [])
  = (inl not_connected, World (store_with "email_123" ∅) []).
Proof.
  exact (proj1 (proj2 (proj2 (proj2
           (X5_not_connected_sends_nothing Store.serve str_lower
              {| host := "h"; api_token := "t"; client := None |}
              (World (store_with "email_123" ∅) []) eq_refl))))
         "email_123" "Z" true).
Defined.

Lemma create_folder_checked {S} (serve : request -> S -> reply * S) c p n w resp s' :
  is_Some (client c) ->
  serve (MailboxSet_create n p) (remote w) = (Returns resp, s') ->
  (create_folder serve c p n w).1
  = match check_created p n resp with
    | inr f => inr f
    | inl e => inl (ValueError ("Error creating folder: " +:+ e))
    end.
Proof.
  intros [u Hu] Hr. unfold create_folder, send. rewrite Hu, Hr.
  destruct (check_created p n resp); reflexivity.
Qed.

(** X6: how [create_folder] reads the response. A non-empty "not created"
    map is a failure whose detail is the entry of [new-folder] ([{}] when
    there is none), and it is looked at first; otherwise a "created" map
    with an entry for [new-folder] that is not null gives the folder, whose
    name and parent are the arguments and whose id is the server's; any
    other response is the unexpected-data failure. *)
Theorem X6_create_reads_response {S : Type} (serve : request -> S -> reply * S)
    (c : JMAPClient) (p n : string) (w : world) (resp : response) (s' : S)
    (Hc : is_Some (client c))
    (Hr : serve (MailboxSet_create n p) (remote w) = (Returns resp, s')) :
  let result := (create_folder serve c p n w).1 in
  (forall r nc, resp = SetResponseOf r -> not_created r = Some nc -> nc <> ∅ ->
      result = inl (ValueError ("Error creating folder: "
                 +:+ ("Failed to create folder: " +:+ default "{}" (nc !! "new-folder")))))
  /\ (forall r cr i, resp = SetResponseOf r ->
      not_created r = None \/ not_created r = Some ∅ ->
      created r = Some cr -> cr !! "new-folder" = Some (Some i) ->
      result = inr (NewFolder i n p))
  /\ (forall f, result = inr f ->
      new_name f = n /\ new_parentId f = p
      /\ exists r cr, resp = SetResponseOf r
           /\ (not_created r = None \/ not_created r = Some ∅)
           /\ created r = Some cr /\ cr !! "new-folder" = Some (Some (new_id f)))
  /\ (forall e, result = inl e ->
      exists msg, e = ValueError ("Error creating folder: " +:+ msg)).
Proof.
  intros result. subst result.
  rewrite (create_folder_checked serve c p n w resp s' Hc Hr).
  unfold check_created. repeat split.
  - intros r nc -> Hnc Hne. simpl.
    rewrite (proj2 (truthy_map_Some _ nc) (conj Hnc Hne)). reflexivity.
  - intros r cr i -> Hnc Hcr Hi. simpl.
    rewrite (proj2 (truthy_map_None _) Hnc).
    assert (Hne : cr <> ∅).
    { intros ->. rewrite lookup_empty in Hi. discriminate. }
    rewrite (proj2 (truthy_map_Some _ cr) (conj Hcr Hne)), Hi. reflexivity.
  - destruct resp as [d|d|r|]; simpl in H; try discriminate.
    destruct (truthy_map (not_created r)); [discriminate|].
    destruct (truthy_map (created r)) as [cr|]; [|discriminate].
    destruct (cr !! "new-folder") as [[i|]|]; try discriminate.
    injection H as <-. reflexivity.
  - destruct resp as [d|d|r|]; simpl in H; try discriminate.
    destruct (truthy_map (not_created r)); [discriminate|].
    destruct (truthy_map (created r)) as [cr|]; [|discriminate].
    destruct (cr !! "new-folder") as [[i|]|]; try discriminate.
    injection H as <-. reflexivity.
  - destruct resp as [d|d|r|]; simpl in H; try discriminate.
    destruct (truthy_map (not_created r)) as [nc|] eqn:En; [discriminate|].
    destruct (truthy_map (created r)) as [cr|] eqn:Ec; [|discriminate].
    destruct (cr !! "new-folder") as [[i|]|] eqn:Ei; try discriminate.
    injection H as <-. exists r, cr. simpl.
    apply truthy_map_None in En. apply truthy_map_Some in Ec as [Ec _]. auto.
  - intros e He.
    destruct (has_not_created resp) as [nc|].
    + injection He as <-. eexists. reflexivity.
    + destruct (has_created resp) as [cr|]; [|injection He as <-; eexists; reflexivity].
      destruct (cr !! "new-folder") as [[i|]|]; try discriminate;
        injection He as <-; eexists; reflexivity.
Qed.

Lemma X6_witness :
  (create_folder
     (always (SetResponseOf (SetResponse None
        (Some {[ "new-folder" := "{'type': 'invalidProperties'}" ]}) None None)))
     connected "parent_id" "Test Folder" (World () [])).1
  = inl (ValueError ("Error creating folder: Failed to create folder: "
                     +:+ "{'type': 'invalidProperties'}")).
Proof.
  refine (proj1 (X6_create_reads_response
            (always (SetResponseOf (SetResponse None
               (Some {[ "new-folder" := "{'type': 'invalidProperties'}" ]}) None None)))
            connected "parent_id" "Test Folder" (World () []) _ () _ eq_refl)
          _ {[ "new-folder" := "{'type': 'invalidProperties'}" ]} eq_refl eq_refl _).
  - exists (). reflexivity.
  - intros Hempty. apply (f_equal (fun m => m !! "new-folder")) in Hempty.
    rewrite lookup_singleton_eq, lookup_empty in Hempty. discriminate.
Defined.

Lemma check_filed_never_false e resp : check_filed e resp <> inr false.
Proof.
  unfold check_filed. destruct (has_not_updated resp); [discriminate|].
  destruct (has_updated resp) as [u|]; [|discriminate].
  case_bool_decide; discriminate.
Qed.

Lemma submit_never_false {S} (serve : request -> S -> reply * S) e m w :
  (submit_mailbox_ids serve e m w).1 <> inr false.
Proof.
  unfold submit_mailbox_ids, send. destruct (serve _ _) as [[resp|x] s]; simpl.
  - pose proof (check_filed_never_false e resp) as H.
    destruct (check_filed e resp) as [msg|[|]]; simpl; congruence.
  - discriminate.
Qed.

Lemma file_email_move_checked {S} (serve : request -> S -> reply * S) c e z w resp s' :
  is_Some (client c) ->
  serve (EmailSet_update e {[ z := true ]}) (remote w) = (Returns resp, s') ->
  (file_email serve c e z false w).1
  = match check_filed e resp with
    | inr b => inr b
    | inl msg => inl (ValueError ("Error filing email: " +:+ msg))
    end.
Proof.
  intros [u Hu] Hr. unfold file_email, submit_mailbox_ids, send. rewrite Hu, Hr.
  destruct (check_filed e resp); reflexivity.
Qed.

(** X7: what [file_email] returns. It never returns [False], in either
    mode: it returns [True] or raises. For a move it returns [True] exactly
    when the response has no "not updated" entry at all and its "updated"
    set holds the email id; a non-empty "not updated" map is the filing
    failure with the entry of the email id as detail ([{}] when it has
    none). *)
Theorem X7_file_email_true_or_raises {S : Type} (serve : request -> S -> reply * S)
    (c : JMAPClient) (e z : string) (w : world) (r : set_response) (s' : S)
    (Hc : is_Some (client c))
    (Hr : serve (EmailSet_update e {[ z := true ]}) (remote w)
          = (Returns (SetResponseOf r), s')) :
  (forall e' z' copy w', (file_email serve c e' z' copy w').1 <> inr false)
  /\ ((file_email serve c e z false w).1 = inr true <->
      (not_updated r = None \/ not_updated r = Some ∅)
      /\ exists u, updated r = Some u /\ e ∈ u)
  /\ (forall nu, not_updated r = Some nu -> nu <> ∅ ->
      (file_email serve c e z false w).1
      = inl (ValueError ("Error filing email: "
               +:+ ("Failed to file email: " +:+ default "{}" (nu !! e))))).
Proof.
  split; [|split].
  - intros e' z' copy w'. unfold file_email. destruct (client c); [|discriminate].
    destruct copy; [|apply submit_never_false].
    destruct (get_email_info serve c e' w') as [[[m|k]|[info|]] w1]; try discriminate.
    destruct (info_mailboxIds info); [apply submit_never_false | discriminate].
  - rewrite (file_email_move_checked serve c e z w _ s' Hc Hr).
    unfold check_filed. simpl. split.
    + destruct (truthy_map (not_updated r)) as [nu|] eqn:En; [discriminate|].
      destruct (truthy_set (updated r)) as [u|] eqn:Eu; [|discriminate].
      case_bool_decide as He; [|discriminate]. intros _.
      apply truthy_map_None in En. apply truthy_set_Some in Eu as [Eu _]. eauto.
    + intros (Hnu & u & Hu & He).
      rewrite (proj2 (truthy_map_None _) Hnu).
      assert (Hne : u <> ∅) by (intros ->; exact (not_elem_of_empty (C:=gset string) e He)).
      rewrite (proj2 (truthy_set_Some _ u) (conj Hu Hne)).
      rewrite bool_decide_eq_true_2 by assumption. reflexivity.
  - intros nu Hnu Hne.
    rewrite (file_email_move_checked serve c e z w _ s' Hc Hr).
    unfold check_filed. simpl.
    rewrite (proj2 (truthy_map_Some _ nu) (conj Hnu Hne)). reflexivity.
Qed.

(** The response of the script's test [test_file_email_error]. *)
Lemma X7_witness :
  (file_email
     (always (SetResponseOf (SetResponse None None (Some ∅)
        (Some {[ "email_123" := "{'type': 'error'}" ]}))))
     connected "email_123" "target_mailbox_id" false (World () [])).1
  = inl (ValueError ("Error filing email: Failed to file email: " +:+ "{'type': 'error'}")).
Proof.
  refine (proj2 (proj2 (X7_file_email_true_or_raises
            (always (SetResponseOf (SetResponse None None (Some ∅)
               (Some {[ "email_123" := "{'type': 'error'}" ]}))))
            connected "email_123" "target_mailbox_id" (World () []) _ () _ eq_refl))
          {[ "email_123" := "{'type': 'error'}" ]} eq_refl _).
  - exists (). reflexivity.
  - intros Hempty. apply (f_equal (fun m => m !! "email_123")) in Hempty.
    rewrite lookup_singleton_eq, lookup_empty in Hempty. discriminate.
Defined.

(** X8: with [copy=True] nothing is written unless the read gave the
    email's folders. When the response to the read carries no email the
    error is "Email not found"; when the read raises, or the email comes
    without a [mailboxIds] map, the error is raised as well; in each case
    the read is the only request sent. *)
Theorem X8_copy_without_email_writes_nothing {S : Type}
    (serve : request -> S -> reply * S) (c : JMAPClient) (e z : string) (w : world)
    (Hc : is_Some (client c)) :
  (forall s', serve (EmailGet [e] email_properties) (remote w)
              = (Returns (EmailGetResponse []), s') ->
      file_email serve c e z true w
      = (inl (ValueError "Error filing email: Email not found"),
         World s' (sent w ++ [EmailGet [e] email_properties])))
  /\ (forall x s', serve (EmailGet [e] email_properties) (remote w) = (Raises x, s') ->
      file_email serve c e z true w
      = (inl (ValueError ("Error filing email: " +:+ ("Error retrieving email: " +:+ x))),
         World s' (sent w ++ [EmailGet [e] email_properties])))
  /\ (forall em rest s', serve (EmailGet [e] email_properties) (remote w)
                         = (Returns (EmailGetResponse (em :: rest)), s') ->
      mailbox_ids em = None ->
      exists msg,
        file_email serve c e z true w
        = (inl (ValueError msg), World s' (sent w ++ [EmailGet [e] email_properties]))).
Proof.
  destruct Hc as [u Hu]. unfold file_email, get_email_info, send. rewrite Hu.
  split; [|split].
  - intros s' ->. reflexivity.
  - intros x s' ->. reflexivity.
  - intros em rest s' -> Hm. simpl. rewrite Hm. eexists. reflexivity.
Qed.

Lemma X8_witness :
  file_email Store.serve connected "missing" "Z" true
    (World (store_with "email_123" {[ "X" := true ]}) [])
  = (inl (ValueError "Error filing email: Email not found"),
     World (store_with "email_123" {[ "X" := true ]})
           [EmailGet ["missing"] email_properties]).
Proof.
  refine (proj1 (X8_copy_without_email_writes_nothing Store.serve connected
                   "missing" "Z" (World (store_with "email_123" {[ "X" := true ]}) []) _)
          _ _).
  - exists (). reflexivity.
  - reflexivity.
Defined.

(** X9: an exception raised by the request never leaves an operation as it
    is. [move_folder_to_archive], [create_folder], [file_email] and
    [get_email_info] raise a [ValueError] whose message is their own prefix
    followed by the message of the exception; [get_mailboxes] ends the
    process with status 1. *)
Theorem X9_request_exceptions_are_wrapped {S : Type}
    (serve : request -> S -> reply * S) (c : JMAPClient) (w : world)
    (Hc : is_Some (client c)) :
  (forall f a x s', serve (MailboxSet_update f a) (remote w) = (Raises x, s') ->
      (move_folder_to_archive serve c f a w).1
      = inl (ValueError ("Error moving folder: " +:+ x)))
  /\ (forall p n x s', serve (MailboxSet_create n p) (remote w) = (Raises x, s') ->
      (create_folder serve c p n w).1
      = inl (ValueError ("Error creating folder: " +:+ x)))
  /\ (forall e z x s', serve (EmailSet_update e {[ z := true ]}) (remote w) = (Raises x, s') ->
      (file_email serve c e z false w).1
      = inl (ValueError ("Error filing email: " +:+ x)))
  /\ (forall e x s', serve (EmailGet [e] email_properties) (remote w) = (Raises x, s') ->
      (get_email_info serve c e w).1
      = inl (ValueError ("Error retrieving email: " +:+ x)))
  /\ (forall x s', serve MailboxGet (remote w) = (Raises x, s') ->
      (get_mailboxes serve c w).1 = inl (SystemExit 1)).
Proof.
  destruct Hc as [u Hu].
  unfold move_folder_to_archive, create_folder, file_email, submit_mailbox_ids,
    get_email_info, get_mailboxes, send.
  rewrite Hu. repeat split; intros; rewrite H; reflexivity.
Qed.

(** A server whose every request raises. *)
Lemma X9_witness :
  (move_folder_to_archive (fun _ (s : unit) => (Raises "Connection refused", s))
     connected "folder_id" "archive_id" (World () [])).1
  = inl (ValueError "Error moving folder: Connection refused").
Proof.
  refine (proj1 (X9_request_exceptions_are_wrapped
                   (fun _ (s : unit) => (Raises "Connection refused", s))
                   connected (World () []) _) "folder_id" "archive_id" _ () eq_refl).
  exists (). reflexivity.
Defined.

Example str_replace_scheme :
  Credentials.str_replace "https://mail.example.com" "https://" "" = "mail.example.com"
  /\ Credentials.str_replace "a--b--c" "--" "+" = "a+b+c"
  /\ Credentials.str_replace "aaa" "aa" "b" = "ba".
Proof. repeat split. Qed.

(** ** Lookups by role and by id *)

Lemma first_with_role_first wanted l1 mb l2 :
  (forall x, x ∈ l1 -> role x <> Some wanted) ->
  role mb = Some wanted ->
  first_with_role wanted (l1 ++ mb :: l2) = Some mb.
Proof.
  intros Hl1 Hmb. induction l1 as [|x l1 IH]; simpl.
  - rewrite bool_decide_eq_true_2 by exact Hmb. reflexivity.
  - rewrite bool_decide_eq_false_2 by (apply Hl1; left).
    apply IH. intros y Hy. apply Hl1. right. exact Hy.
Qed.

Lemma first_with_role_none wanted l :
  first_with_role wanted l = None <-> forall x, x ∈ l -> role x <> Some wanted.
Proof.
  induction l as [|x l IH]; simpl.
  - split; [|reflexivity]. intros _ y Hy. inversion Hy.
  - case_bool_decide as Hx.
    + split; [discriminate|]. intros H. exfalso. apply (H x); [left | exact Hx].
    + rewrite IH. split.
      * intros H y Hy. inversion Hy; subst; [exact Hx | apply H; assumption].
      * intros H y Hy. apply H. right. exact Hy.
Qed.

(** X10: [get_mailbox_by_role] returns the first mailbox of the list whose
    role is exactly the role asked for, and nothing exactly when no mailbox
    of the list has that role. *)
Theorem X10_mailbox_by_role {S : Type} (serve : request -> S -> reply * S)
    (c : JMAPClient) (wanted : string) (w : world) (mbs : list mailbox) (s' : S)
    (Hc : is_Some (client c))
    (Hr : serve MailboxGet (remote w) = (Returns (MailboxGetResponse mbs), s')) :
  (forall l1 mb l2, mbs = l1 ++ mb :: l2 ->
      (forall x, x ∈ l1 -> role x <> Some wanted) -> role mb = Some wanted ->
      (get_mailbox_by_role serve c wanted w).1 = inr (Some mb))
  /\ ((get_mailbox_by_role serve c wanted w).1 = inr None <->
      forall x, x ∈ mbs -> role x <> Some wanted).
Proof.
  destruct Hc as [u Hu].
  unfold get_mailbox_by_role, get_mailboxes, send. rewrite Hu, Hr. simpl. split.
  - intros l1 mb l2 -> Hl1 Hmb. rewrite (first_with_role_first wanted l1 mb l2 Hl1 Hmb).
    reflexivity.
  - rewrite <- first_with_role_none. split; [intros [= ->]; reflexivity | intros ->; reflexivity].
Qed.

Lemma X10_witness :
  (get_mailbox_by_role (always (MailboxGetResponse sample_mailboxes)) connected
     "sent" (World () [])).1
  = inr (Some (Mailbox "mb_sent" "Sent Items" (Some "sent") 20 None 100 0 85 0))
  /\ (get_mailbox_by_role (always (MailboxGetResponse sample_mailboxes)) connected
        "Sent" (World () [])).1 = inr None.
Proof.
  pose proof (X10_mailbox_by_role (always (MailboxGetResponse sample_mailboxes))
                connected "sent" (World () []) sample_mailboxes ()
                (ex_intro _ () eq_refl) eq_refl) as [H1 _].
  split.
  - apply (H1 [Mailbox "mb_inbox" "Inbox" (Some "inbox") 10 None 42 5 30 4]
              (Mailbox "mb_sent" "Sent Items" (Some "sent") 20 None 100 0 85 0)
              (drop 2 sample_mailboxes)); [reflexivity | | reflexivity].
    intros x Hx. apply list_elem_of_singleton in Hx as ->. discriminate.
  - vm_compute. reflexivity.
Defined.

Lemma name_of_id_first i l1 mb l2 :
  (forall x, x ∈ l1 -> id x <> i) -> id mb = i ->
  name_of_id i (l1 ++ mb :: l2) = name mb.
Proof.
  intros Hl1 Hmb. induction l1 as [|x l1 IH]; simpl.
  - rewrite (proj2 (String.eqb_eq _ _) Hmb). reflexivity.
  - rewrite (proj2 (String.eqb_neq _ _)) by (apply Hl1; left).
    apply IH. intros y Hy. apply Hl1. right. exact Hy.
Qed.

Lemma name_of_id_absent i l :
  (forall x, x ∈ l -> id x <> i) -> name_of_id i l = i.
Proof.
  intros Hno. induction l as [|x l IH]; simpl; [reflexivity|].
  rewrite (proj2 (String.eqb_neq _ _)) by (apply Hno; left).
  apply IH. intros y Hy. apply Hno. right. exact Hy.
Qed.

(** X11: [get_mailbox_name] gives the name of the first mailbox of the list
    that has the id, and the id itself when no mailbox has it. *)
Theorem X11_mailbox_name_or_id {S : Type} (serve : request -> S -> reply * S)
    (c : JMAPClient) (i : string) (w : world) (mbs : list mailbox) (s' : S)
    (Hc : is_Some (client c))
    (Hr : serve MailboxGet (remote w) = (Returns (MailboxGetResponse mbs), s')) :
  (forall l1 mb l2, mbs = l1 ++ mb :: l2 ->
      (forall x, x ∈ l1 -> id x <> i) -> id mb = i ->
      (get_mailbox_name serve c i w).1 = inr (name mb))
  /\ ((forall x, x ∈ mbs -> id x <> i) ->
      (get_mailbox_name serve c i w).1 = inr i).
Proof.
  destruct Hc as [u Hu].
  unfold get_mailbox_name, get_mailboxes, send. rewrite Hu, Hr. simpl. split.
  - intros l1 mb l2 -> Hl1 Hmb. rewrite (name_of_id_first i l1 mb l2 Hl1 Hmb). reflexivity.
  - intros Hno. rewrite (name_of_id_absent i mbs Hno). reflexivity.
Qed.

Lemma X11_witness :
  (get_mailbox_name (always (MailboxGetResponse sample_mailboxes)) connected
     "mb_gone" (World () [])).1 = inr "mb_gone".
Proof.
  refine (proj2 (X11_mailbox_name_or_id (always (MailboxGetResponse sample_mailboxes))
                   connected "mb_gone" (World () []) sample_mailboxes () _ eq_refl) _).
  - exists (). reflexivity.
  - unfold sample_mailboxes. intros x. rewrite !elem_of_cons, elem_of_nil.
    intros [->|[->|[->|[->|[->|[->|[->|[->|[]]]]]]]]]; discriminate.
Defined.

(** ** The grouping of the folders by parent *)

Lemma fold_add_child_lookup mbs (m0 : gmap string (list mailbox)) k :
  fold_left ListFolders.add_child mbs m0 !! k
  = match filter (fun mb => ListFolders.tree_key mb = k) mbs with
    | [] => m0 !! k
    | l => Some (default [] (m0 !! k) ++ l)
    end.
Proof.
  revert m0. induction mbs as [|mb mbs IH]; intros m0; [reflexivity|].
  cbn [fold_left]. rewrite IH, filter_cons. unfold ListFolders.add_child.
  destruct (decide (ListFolders.tree_key mb = k)) as [->|Hk].
  - rewrite lookup_insert_eq. simpl.
    destruct (filter _ mbs); [reflexivity|].
    rewrite <- app_assoc. reflexivity.
  - rewrite lookup_insert_ne by exact Hk. reflexivity.
Qed.

(** X12: [build_folder_tree] groups the folders by parent and keeps the
    order of the list: the entry of a key is the list, never empty, of the
    folders with that key, in list order, and every folder is in the entry
    of its key. The key [root] collects the folders whose parent id is
    missing, empty, or the string "root" itself. *)
Theorem X12_folder_tree_groups (mbs : list mailbox) :
  (forall k l, ListFolders.build_folder_tree mbs !! k = Some l <->
      l = filter (fun mb => ListFolders.tree_key mb = k) mbs /\ l <> [])
  /\ (forall mb, mb ∈ mbs ->
      exists l, ListFolders.build_folder_tree mbs !! ListFolders.tree_key mb = Some l
                /\ mb ∈ l)
  /\ (forall mb, ListFolders.tree_key mb = "root" <->
      parentId mb = None \/ parentId mb = Some "" \/ parentId mb = Some "root").
Proof.
  assert (Hlookup : forall k, ListFolders.build_folder_tree mbs !! k
     = match filter (fun mb => ListFolders.tree_key mb = k) mbs with
       | [] => None
       | l => Some l
       end).
  { intros k. unfold ListFolders.build_folder_tree.
    rewrite fold_add_child_lookup, lookup_empty. reflexivity. }
  split; [|split].
  - intros k l. rewrite Hlookup.
    destruct (filter _ mbs) as [|x l'] eqn:E.
    + split; [discriminate|]. intros [-> Hne]. contradiction.
    + split; [intros [= <-]; split; [reflexivity | discriminate]|].
      intros [-> _]. reflexivity.
  - intros mb Hmb. rewrite Hlookup.
    assert (Hin : mb ∈ filter (fun x => ListFolders.tree_key x = ListFolders.tree_key mb) mbs).
    { apply list_elem_of_filter. split; [reflexivity | exact Hmb]. }
    destruct (filter _ mbs) as [|x l'] eqn:E; [inversion Hin|].
    eexists. split; [reflexivity | exact Hin].
  - intros mb. unfold ListFolders.tree_key.
    destruct (parentId mb) as [p|]; [|split; auto].
    destruct (String.eqb_spec p "") as [->|Hne].
    + split; auto.
    + split.
      * intros ->. auto.
      * intros [H|[H|H]]; congruence.
Qed.

(** ** The host of the credentials *)

Lemma lacks_append c s1 s2 : lacks c (s1 +:+ s2) <-> lacks c s1 /\ lacks c s2.
Proof. induction s1 as [|a s1 IH]; simpl; [tauto | rewrite IH; tauto]. Qed.

Lemma startswith_lacks c s p :
  Credentials.startswith s p = true -> lacks c s -> lacks c p.
Proof.
  revert s. induction p as [|a p IH]; intros s; simpl; [auto|].
  destruct s as [|b s]; [discriminate|].
  intros H [Hb Hs]. apply andb_true_iff in H as [Hab Hp].
  apply Ascii.eqb_eq in Hab. subst b. split; [exact Hb | exact (IH s Hp Hs)].
Qed.

Lemma startswith_append s h : Credentials.startswith (s +:+ h) s = true.
Proof. induction s as [|a s IH]; simpl; [reflexivity|]. rewrite Ascii.eqb_refl. exact IH. Qed.

(** A text without a character of [old] has no occurrence of [old]. *)
Lemma replace_lacks c old new s :
  ~ lacks c old -> lacks c s -> Credentials.replace_from old new 0 s = s.
Proof.
  intros Hold. induction s as [|b s IH]; intros Hs; [reflexivity|].
  cbn [Credentials.replace_from].
  destruct (Credentials.startswith (String b s) old) eqn:E.
  - exfalso. apply Hold. exact (startswith_lacks c _ _ E Hs).
  - rewrite IH by apply Hs. reflexivity.
Qed.

Lemma replace_skip old new p h :
  Credentials.replace_from old new (String.length p) (p +:+ h)
  = Credentials.replace_from old new 0 h.
Proof.
  induction p as [|a p IH]; simpl; [|exact IH].
  destruct h; reflexivity.
Qed.

(** An occurrence at the head is replaced, and the search goes on after it. *)
Lemma replace_head a old new h :
  Credentials.replace_from (String a old) new 0 (String a old +:+ h)
  = new +:+ Credentials.replace_from (String a old) new 0 h.
Proof.
  change (String a old +:+ h) with (String a (old +:+ h)).
  cbn [Credentials.replace_from].
  change (String a (old +:+ h)) with (String a old +:+ h).
  rewrite startswith_append.
  replace (String.length (String a old) - 1)%nat with (String.length old)
    by (cbn [String.length]; lia).
  rewrite replace_skip. reflexivity.
Qed.

Lemma no_slash_no_scheme h :
  lacks "/" h ->
  Credentials.startswith h "https://" = false
  /\ Credentials.startswith h "http://" = false
  /\ Credentials.str_replace h "https://" "" = h
  /\ Credentials.str_replace h "http://" "" = h.
Proof.
  intros Hh.
  assert (H1 : ~ lacks "/" "https://") by (simpl; tauto).
  assert (H2 : ~ lacks "/" "http://") by (simpl; tauto).
  repeat split.
  - destruct (Credentials.startswith h "https://") eqn:E; [|reflexivity].
    exfalso. exact (H1 (startswith_lacks _ _ _ E Hh)).
  - destruct (Credentials.startswith h "http://") eqn:E; [|reflexivity].
    exfalso. exact (H2 (startswith_lacks _ _ _ E Hh)).
  - apply (replace_lacks "/"); assumption.
  - apply (replace_lacks "/"); assumption.
Qed.

Lemma strip_https h :
  lacks "/" h -> Credentials.str_replace ("https://" +:+ h) "https://" "" = h.
Proof.
  intros Hh. unfold Credentials.str_replace.
  rewrite (replace_head "h" "ttps://" "" h).
  apply (proj1 (proj2 (proj2 (no_slash_no_scheme h Hh)))).
Qed.

Lemma strip_http h :
  lacks "/" h -> Credentials.str_replace ("http://" +:+ h) "http://" "" = h.
Proof.
  intros Hh. unfold Credentials.str_replace.
  rewrite (replace_head "h" "ttp://" "" h).
  apply (proj2 (proj2 (proj2 (no_slash_no_scheme h Hh)))).
Qed.

Lemma keep_http_under_https h :
  lacks "/" h ->
  Credentials.str_replace ("http://" +:+ h) "https://" "" = "http://" +:+ h.
Proof.
  intros Hh. unfold Credentials.str_replace.
  change ("http://" +:+ h)
    with (String "h" (String "t" (String "t" (String "p" (String ":"
           (String "/" (String "/" h))))))).
  cbn [Credentials.replace_from Credentials.startswith Ascii.eqb Bool.eqb andb].
  f_equal. f_equal. f_equal. f_equal. f_equal. f_equal. f_equal.
  apply (proj1 (proj2 (proj2 (no_slash_no_scheme h Hh)))).
Qed.

(** X13: the host that [load_jmap_credentials_rw] returns. For a host name
    without a slash, given as it is, after "http://" or after "https://",
    the host returned is the bare name, and the token is returned as it
    is. *)
Theorem X13_rw_host_without_scheme (environ : gmap string string)
    (h token raw : string)
    (Hh : lacks "/" h) (Hne : h <> "") (Htne : token <> "")
    (Hraw : raw = h \/ raw = "http://" +:+ h \/ raw = "https://" +:+ h)
    (Hhost : environ !! "JMAP_HOST" = Some raw)
    (Htok : environ !! "JMAP_API_TOKEN_RW" = Some token) :
  Credentials.load_jmap_credentials_rw environ = inr (h, token).
Proof.
  destruct (no_slash_no_scheme h Hh) as (Hs1 & Hs2 & _ & _).
  unfold Credentials.load_jmap_credentials_rw. rewrite Hhost, Htok.
  destruct token as [|t0 token]; [contradiction|].
  destruct Hraw as [ -> | [ -> | -> ] ].
  - destruct h as [|c h]; [contradiction|]. rewrite Hs1, Hs2. reflexivity.
  - change ("http://" +:+ h) with (String "h" ("ttp://" +:+ h)).
    cbv iota beta.
    change (String "h" ("ttp://" +:+ h)) with ("http://" +:+ h).
    replace (Credentials.startswith ("http://" +:+ h) "https://") with false by reflexivity.
    rewrite startswith_append, (strip_http h Hh). reflexivity.
  - change ("https://" +:+ h) with (String "h" ("ttps://" +:+ h)).
    cbv iota beta.
    change (String "h" ("ttps://" +:+ h)) with ("https://" +:+ h).
    rewrite startswith_append, (strip_https h Hh), Hs2. reflexivity.
Qed.

Lemma X13_witness :
  Credentials.load_jmap_credentials_rw
    {[ "JMAP_HOST" := "https://mail.example.com"; "JMAP_API_TOKEN_RW" := "readwrite_token_456" ]}
  = inr ("mail.example.com", "readwrite_token_456").
Proof.
  apply (X13_rw_host_without_scheme _ "mail.example.com" "readwrite_token_456"
           "https://mail.example.com").
  - simpl. repeat split; discriminate.
  - discriminate.
  - discriminate.
  - right. right. reflexivity.
  - reflexivity.
  - reflexivity.
Defined.

(** X14: the host that [load_jmap_credentials] of jmap_common.py returns,
    under the same conditions: the bare name. *)
Theorem X14_common_host_without_scheme (environ : gmap string string)
    (h token raw : string)
    (Hh : lacks "/" h) (Hne : h <> "") (Htne : token <> "")
    (Hraw : raw = h \/ raw = "http://" +:+ h \/ raw = "https://" +:+ h)
    (Hhost : environ !! "JMAP_HOST" = Some raw)
    (Htok : environ !! "JMAP_API_TOKEN" = Some token) :
  Credentials.load_jmap_credentials environ = inr (h, token).
Proof.
  destruct (no_slash_no_scheme h Hh) as (_ & _ & Hr1 & Hr2).
  unfold Credentials.load_jmap_credentials. rewrite Hhost, Htok.
  destruct token as [|t0 token]; [contradiction|].
  destruct Hraw as [ -> | [ -> | -> ] ].
  - destruct h as [|c h]; [contradiction|]. rewrite Hr1, Hr2. reflexivity.
  - change ("http://" +:+ h) with (String "h" ("ttp://" +:+ h)).
    cbv iota beta.
    change (String "h" ("ttp://" +:+ h)) with ("http://" +:+ h).
    rewrite (keep_http_under_https h Hh), (strip_http h Hh). reflexivity.
  - change ("https://" +:+ h) with (String "h" ("ttps://" +:+ h)).
    cbv iota beta.
    change (String "h" ("ttps://" +:+ h)) with ("https://" +:+ h).
    rewrite (strip_https h Hh), Hr2. reflexivity.
Qed.

Lemma X14_witness :
  Credentials.load_jmap_credentials
    {[ "JMAP_HOST" := "http://mail.example.com"; "JMAP_API_TOKEN" := "token_123" ]}
  = inr ("mail.example.com", "token_123").
Proof.
  apply (X14_common_host_without_scheme _ "mail.example.com" "token_123"
           "http://mail.example.com").
  - simpl. repeat split; discriminate.
  - discriminate.
  - discriminate.
  - right. left. reflexivity.
  - reflexivity.
  - reflexivity.
Defined.

(** X15: what the two loaders do without a host or a token. The loader of
    the writing scripts raises a [ValueError] that names the variable: the
    host when it is missing or empty, whatever the token; the token when
    only it is missing or empty. The loader of jmap_common.py ends the
    process with status 1 in both cases. Either returns credentials exactly
    when both variables are set and not empty, with the token unchanged. *)
Theorem X15_missing_credentials (environ : gmap string string) :
  let set_ v := exists x, environ !! v = Some x /\ x <> "" in
  (Credentials.load_jmap_credentials_rw environ
     = inl (ValueError "JMAP_HOST environment variable is required")
   <-> ~ set_ "JMAP_HOST")
  /\ (Credentials.load_jmap_credentials_rw environ
        = inl (ValueError "JMAP_API_TOKEN_RW environment variable is required")
      <-> set_ "JMAP_HOST" /\ ~ set_ "JMAP_API_TOKEN_RW")
  /\ ((exists cred, Credentials.load_jmap_credentials_rw environ = inr cred)
      <-> set_ "JMAP_HOST" /\ set_ "JMAP_API_TOKEN_RW")
  /\ (Credentials.load_jmap_credentials environ = inl (SystemExit 1)
      <-> ~ (set_ "JMAP_HOST" /\ set_ "JMAP_API_TOKEN"))
  /\ (forall host token,
        Credentials.load_jmap_credentials_rw environ = inr (host, token) ->
        environ !! "JMAP_API_TOKEN_RW" = Some token)
  /\ (forall host token,
        Credentials.load_jmap_credentials environ = inr (host, token) ->
        environ !! "JMAP_API_TOKEN" = Some token).
Proof.
  intros set_.
  assert (Hset : forall v, set_ v <->
            match environ !! v with Some (String _ _) => True | _ => False end).
  { intros v. subst set_. cbv beta. destruct (environ !! v) as [[|a x]|].
    - split; [|tauto]. intros (y & [= <-] & Hy). congruence.
    - split; [tauto|]. intros _. eexists. split; [reflexivity | discriminate].
    - split; [|tauto]. intros (y & Hy & _). discriminate. }
  rewrite !Hset. clear Hset set_.
  unfold Credentials.load_jmap_credentials_rw, Credentials.load_jmap_credentials.
  destruct (environ !! "JMAP_HOST") as [[|h0 h]|];
    destruct (environ !! "JMAP_API_TOKEN_RW") as [[|t0 t]|];
    destruct (environ !! "JMAP_API_TOKEN") as [[|u0 u]|];
    cbv iota beta;
    repeat split;
    try tauto; try discriminate;
    try (intros [cred Hcred]; discriminate);
    try (intros; eexists; reflexivity);
    try (intros host token [= _ <-]; reflexivity);
    try (intros H; exfalso; apply H; split; exact I);
    try congruence;
    try (match goal with H : exists _, _ |- _ => destruct H; discriminate end).
Qed.

(** ** The scripts from end to end *)

Lemma get_mailboxes_sent {S} (serve : request -> S -> reply * S) c w :
  is_Some (client c) ->
  sent (get_mailboxes serve c w).2 = sent w ++ [MailboxGet].
Proof.
  intros [u Hu]. unfold get_mailboxes, send. rewrite Hu.
  destruct (serve _ _) as [[[d|d|r|]|x] s]; reflexivity.
Qed.

Lemma get_mailbox_by_name_sent {S} (serve : request -> S -> reply * S) lower c n w :
  is_Some (client c) ->
  sent (get_mailbox_by_name serve lower c n w).2 = sent w ++ [MailboxGet].
Proof.
  intros Hc. unfold get_mailbox_by_name.
  pose proof (get_mailboxes_sent serve c w Hc) as H.
  destruct (get_mailboxes serve c w) as [[e|l] w']; exact H.
Qed.

Lemma connect_connected handshake c c' :
  connect handshake c = inr c' -> is_Some (client c').
Proof.
  unfold connect. destruct (handshake _ _); [discriminate|].
  intros [= <-]. exists (). reflexivity.
Qed.

Lemma only_reads_refl l : only_reads l l.
Proof. exists 0%nat. simpl. rewrite app_nil_r. reflexivity. Qed.

Lemma only_reads_step l1 l2 : only_reads l1 l2 -> only_reads l1 (l2 ++ [MailboxGet]).
Proof.
  intros [n ->]. exists (Datatypes.S n).
  rewrite <- app_assoc. f_equal.
  change [MailboxGet] with (replicate 1 MailboxGet).
  rewrite <- replicate_add. f_equal. lia.
Qed.

Lemma move_folder_to_archive_sent {S} (serve : request -> S -> reply * S) c f a w :
  is_Some (client c) ->
  sent (move_folder_to_archive serve c f a w).2 = sent w ++ [MailboxSet_update f a].
Proof.
  intros [u Hu]. unfold move_folder_to_archive, send. rewrite Hu.
  destruct (serve _ _) as [[resp|x] s]; simpl; [destruct (check_moved f resp)|]; reflexivity.
Qed.

Lemma archive_sent {S} (serve : request -> S -> reply * S) c f a w :
  is_Some (client c) ->
  sent (ArchiveScript.archive serve c f a w).2 = sent w ++ [MailboxSet_update f a].
Proof.
  intros Hc. unfold ArchiveScript.archive.
  pose proof (move_folder_to_archive_sent serve c f a w Hc) as H.
  destruct (move_folder_to_archive serve c f a w) as [[[m|k]|[|]] w']; exact H.
Qed.

(** X16: what the archive script sends. A run sends at most two listings
    of the folders and then, at most, one update of a folder's parent; the
    update is sent only when [--dry-run] is not given and the run is
    confirmed, by [--yes] or by the answer y or yes. With [--dry-run], or
    with another answer, nothing but listings is sent and the script does
    not end as on success. *)
Theorem X16_archive_writes_only_when_confirmed {S : Type}
    (serve : request -> S -> reply * S) (lower : string -> string)
    (handshake : string -> string -> option string)
    (args : ArchiveScript.args) (environ : gmap string string)
    (stdin : list string) (w : world) :
  let run := ArchiveScript.main serve lower handshake args environ stdin w in
  (exists reads, only_reads (sent w) reads /\ (length reads <= length (sent w) + 2)%nat
     /\ (sent run.2 = reads
         \/ exists f a, sent run.2 = reads ++ [MailboxSet_update f a]
              /\ ArchiveScript.dry_run args = false
              /\ confirm lower (ArchiveScript.yes args) stdin = inr true))
  /\ (ArchiveScript.dry_run args = true
      \/ confirm lower (ArchiveScript.yes args) stdin <> inr true ->
      only_reads (sent w) (sent run.2) /\ run.1 <> Returned).
Proof.
  intros run. subst run. unfold ArchiveScript.main.
  assert (H0 : only_reads (sent w) (sent w) /\ (length (sent w) <= length (sent w) + 2)%nat)
    by (split; [apply only_reads_refl | lia]).
  destruct (Credentials.load_jmap_credentials_rw environ) as [e|[h t]];
    [split; [exists (sent w); tauto | intros _; split; [tauto | discriminate]]|].
  destruct (connect handshake _) as [e|c] eqn:Ec;
    [split; [exists (sent w); tauto | intros _; split; [tauto | discriminate]]|].
  pose proof (connect_connected _ _ _ Ec) as Hc.
  pose proof (get_mailbox_by_name_sent serve lower c "400_archives" w Hc) as H1.
  destruct (get_mailbox_by_name serve lower c "400_archives" w) as [[[m|k]|[a|]] w1];
    simpl in H1.
  1-2,4: assert (Hr : only_reads (sent w) (sent w1)
                      /\ (length (sent w1) <= length (sent w) + 2)%nat)
           by (rewrite H1; split; [apply only_reads_step, only_reads_refl
                                   | rewrite length_app; simpl; lia]);
         (split; [exists (sent w1); tauto | intros _; split; [tauto | discriminate]]).
  pose proof (get_mailboxes_sent serve c w1 Hc) as H2.
  destruct (get_mailboxes serve c w1) as [[[m|k]|mbs] w2]; simpl in H2.
  all: assert (Hr : only_reads (sent w) (sent w2)
                    /\ (length (sent w2) <= length (sent w) + 2)%nat)
         by (rewrite H2, H1; split;
             [apply only_reads_step, only_reads_step, only_reads_refl
             | rewrite !length_app; simpl; lia]).
  1-2: split; [exists (sent w2); tauto | intros _; split; [tauto | discriminate]].
  destruct (ArchiveFolder.find_folder_in_para mbs (ArchiveScript.folder_name args)) as [f|];
    [|split; [exists (sent w2); tauto | intros _; split; [tauto | discriminate]]].
  destruct (ArchiveScript.dry_run args) eqn:Ed;
    [split; [exists (sent w2); tauto | intros _; split; [tauto | discriminate]]|].
  destruct (confirm lower (ArchiveScript.yes args) stdin) as [x|[|]] eqn:Eq.
  1,3: split; [exists (sent w2); tauto | intros _; split; [tauto | discriminate]].
  split.
  - exists (sent w2). split; [tauto|]. split; [tauto|]. right.
    exists (id (folder f)), (id a). rewrite (archive_sent serve c _ _ w2 Hc). auto.
  - intros [Hd|Hn]; [discriminate | contradiction].
Qed.

Lemma move_folder_store c f a s l :
  is_Some (client c) ->
  (exists mb, mb ∈ Store.mailboxes s /\ id mb = f) ->
  move_folder_to_archive Store.serve c f a (World s l)
  = (inr true,
     World {| Store.mailboxes := map (Store.set_parent f a) (Store.mailboxes s);
              Store.emails := Store.emails s;
              Store.next_id := Store.next_id s |}
           (l ++ [MailboxSet_update f a])).
Proof.
  intros [u Hu] (mb & Hmb & Hid). unfold move_folder_to_archive, send. rewrite Hu. simpl.
  assert (He : existsb (fun mb => String.eqb (id mb) f) (Store.mailboxes s) = true).
  { apply existsb_exists. exists mb. split; [apply list_elem_of_In, Hmb|].
    apply String.eqb_eq, Hid. }
  rewrite He. simpl.
  unfold check_moved, has_not_updated, has_updated, truthy_set. simpl.
  rewrite bool_decide_eq_false_2 by set_solver.
  rewrite bool_decide_eq_true_2 by set_solver. reflexivity.
Qed.

Lemma set_parent_of_target f a mb :
  id (Store.set_parent f a mb) = id mb
  /\ (id mb = f -> parentId (Store.set_parent f a mb) = Some a)
  /\ (id mb <> f -> Store.set_parent f a mb = mb).
Proof.
  unfold Store.set_parent. destruct (String.eqb_spec (id mb) f) as [E|E]; simpl.
  - split; [reflexivity|]. split; [reflexivity | contradiction].
  - split; [reflexivity|]. split; [contradiction | reflexivity].
Qed.

(** X17: the archive script from end to end, on the mail store. When the
    credentials load, the session opens, a folder answers to the name
    400_archives, the resolver finds the folder to archive and the run is
    confirmed and not dry, the script sends two listings and one update,
    ends as on success, and leaves every folder that has the id of the
    folder found with the archive folder as parent; the folders with
    another id and the emails are as before. *)
Theorem X17_archive_end_to_end (lower : string -> string)
    (handshake : string -> string -> option string)
    (args : ArchiveScript.args) (environ : gmap string string) (stdin : list string)
    (s : Store.store) (h t : string) (a : mailbox) (f : found)
    (Hcred : Credentials.load_jmap_credentials_rw environ = inr (h, t))
    (Hopen : handshake h t = None)
    (Ha : first_named lower (lower "400_archives") (Store.mailboxes s) = Some a)
    (Hf : ArchiveFolder.find_folder_in_para (Store.mailboxes s)
            (ArchiveScript.folder_name args) = Some f)
    (Hdry : ArchiveScript.dry_run args = false)
    (Hyes : confirm lower (ArchiveScript.yes args) stdin = inr true) :
  exists s',
    ArchiveScript.main Store.serve lower handshake args environ stdin (World s [])
    = (Returned,
       World s' [MailboxGet; MailboxGet; MailboxSet_update (id (folder f)) (id a)])
    /\ Store.mailboxes s'
       = map (Store.set_parent (id (folder f)) (id a)) (Store.mailboxes s)
    /\ (forall mb, mb ∈ Store.mailboxes s' -> id mb = id (folder f) ->
          parentId mb = Some (id a))
    /\ (forall mb, mb ∈ Store.mailboxes s -> id mb <> id (folder f) ->
          mb ∈ Store.mailboxes s')
    /\ Store.emails s' = Store.emails s.
Proof.
  assert (Hin : exists mb, mb ∈ Store.mailboxes s /\ id mb = id (folder f)).
  { exists (folder f). split; [|reflexivity].
    exact (proj1 (archive_find_sound _ _ _ Hf)). }
  unfold ArchiveScript.main. rewrite Hcred. unfold connect. simpl. rewrite Hopen.
  unfold get_mailbox_by_name, get_mailboxes, send. simpl. rewrite Ha, Hf, Hdry, Hyes.
  unfold ArchiveScript.archive.
  rewrite (move_folder_store {| host := h; api_token := t; client := Some () |}
             (id (folder f)) (id a) s _ (ex_intro _ () eq_refl) Hin).
  eexists. split; [reflexivity|]. simpl. split; [reflexivity|]. split; [|split].
  - intros mb Hmb Hid. apply list_elem_of_fmap in Hmb as (x & -> & Hx).
    destruct (set_parent_of_target (id (folder f)) (id a) x) as (Hi & Hp & _).
    apply Hp. congruence.
  - intros mb Hmb Hid. apply list_elem_of_fmap. exists mb. split; [|exact Hmb].
    symmetry. apply set_parent_of_target, Hid.
  - reflexivity.
Qed.

(** The end-to-end run on the folders of the test fixture. *)
Lemma X17_witness :
  exists s',
    ArchiveScript.main Store.serve str_lower (fun _ _ => None)
      (ArchiveScript.Args "2025-Q1_website-redesign" false true)
      {[ "JMAP_HOST" := "api.example.com"; "JMAP_API_TOKEN_RW" := "readwrite_token_456" ]} []
      (World {| Store.mailboxes := sample_mailboxes; Store.emails := ∅;
                Store.next_id := 0 |} [])
    = (Returned,
       World s' [MailboxGet; MailboxGet;
                 MailboxSet_update "mb_project_1" "mb_400_archives"])
    /\ Store.mailboxes s'
       = map (Store.set_parent "mb_project_1" "mb_400_archives") sample_mailboxes.
Proof.
  assert (Hcred : Credentials.load_jmap_credentials_rw
            {[ "JMAP_HOST" := "api.example.com";
               "JMAP_API_TOKEN_RW" := "readwrite_token_456" ]}
          = inr ("api.example.com", "readwrite_token_456")) by (vm_compute; reflexivity).
  assert (Ha : first_named str_lower (str_lower "400_archives") sample_mailboxes
          = Some (Mailbox "mb_400_archives" "400_archives" None 400 None 500 0 350 0))
    by (vm_compute; reflexivity).
  assert (Hf : ArchiveFolder.find_folder_in_para sample_mailboxes "2025-Q1_website-redesign"
          = Some sample_project) by (vm_compute; reflexivity).
  destruct (X17_archive_end_to_end str_lower (fun _ _ => None)
              (ArchiveScript.Args "2025-Q1_website-redesign" false true)
              {[ "JMAP_HOST" := "api.example.com";
                 "JMAP_API_TOKEN_RW" := "readwrite_token_456" ]} []
              {| Store.mailboxes := sample_mailboxes; Store.emails := ∅;
                 Store.next_id := 0 |}
              "api.example.com" "readwrite_token_456"
              (Mailbox "mb_400_archives" "400_archives" None 400 None 500 0 350 0)
              sample_project
              Hcred eq_refl Ha Hf eq_refl eq_refl)
    as (s' & Hrun & Hmbs & _).
  exists s'. split; [exact Hrun | exact Hmbs].
Defined.

Lemma name_each_sent {S} (serve : request -> S -> reply * S) c ids w :
  is_Some (client c) ->
  exists n, sent (FileScript.name_each serve c ids w).2 = sent w ++ replicate n MailboxGet.
Proof.
  intros Hc. revert w. induction ids as [|i ids IH]; intros w; simpl.
  - exists 0%nat. simpl. rewrite app_nil_r. reflexivity.
  - unfold get_mailbox_name.
    pose proof (get_mailboxes_sent serve c w Hc) as H.
    destruct (get_mailboxes serve c w) as [[e|l] w']; simpl in *.
    + exists 1%nat. exact H.
    + destruct (IH w') as [n Hn]. exists (Datatypes.S n). rewrite Hn, H, <- app_assoc.
      reflexivity.
Qed.

Lemma Forall_replicate_read n : Forall is_read (replicate n MailboxGet).
Proof. induction n; simpl; constructor; [exact I | assumption]. Qed.

(** What [file_email] sends, in either mode: reads, then at most one
    update, of the email asked for. *)
Lemma file_email_sends {S} (serve : request -> S -> reply * S) c e z copy w :
  is_Some (client c) ->
  exists pre, Forall is_read pre
    /\ (sent (file_email serve c e z copy w).2 = sent w ++ pre
        \/ exists m, sent (file_email serve c e z copy w).2
                     = sent w ++ pre ++ [EmailSet_update e m]).
Proof.
  intros Hc. destruct copy.
  - destruct (file_email_copy_sent serve c e z w Hc) as (rest & Hs & [->|[cur ->]]).
    + exists [EmailGet [e] email_properties]. split; [repeat constructor|].
      left. exact Hs.
    + exists [EmailGet [e] email_properties]. split; [repeat constructor|].
      right. exists (<[ z := true ]> cur). exact Hs.
  - exists []. split; [constructor|]. right. exists {[ z := true ]}.
    destruct Hc as [u Hu]. unfold file_email. rewrite Hu. apply submit_sent.
Qed.

Lemma file_sent {S} (serve : request -> S -> reply * S) c e z copy w :
  sent (FileScript.file serve c e z copy w).2 = sent (file_email serve c e z copy w).2.
Proof.
  unfold FileScript.file.
  destruct (file_email serve c e z copy w) as [[[m|k]|[|]] w']; reflexivity.
Qed.

(** X18: what the filing script sends. Whatever is sent begins with the
    read of the email, also for a move; reads of the folders and of the
    email follow, and at most one update, of the [mailboxIds] of the email
    given, comes last, only when the run is confirmed by [--yes] or by the
    answer y or yes. Without confirmation the script does not end as on
    success. *)
Theorem X18_file_script_writes_only_when_confirmed {S : Type}
    (serve : request -> S -> reply * S) (lower : string -> string)
    (handshake : string -> string -> option string) (fuel : nat)
    (args : FileScript.args) (environ : gmap string string)
    (stdin : list string) (w : world) :
  let run := FileScript.main serve lower handshake fuel args environ stdin w in
  (exists pre, Forall is_read pre
     /\ (sent run.2 = sent w ++ pre
         \/ exists m, sent run.2
                      = sent w ++ pre ++ [EmailSet_update (FileScript.email_id args) m]
              /\ confirm lower (FileScript.yes args) stdin = inr true))
  /\ (sent run.2 = sent w
      \/ exists rest, sent run.2
           = sent w ++ EmailGet [FileScript.email_id args] email_properties :: rest)
  /\ (confirm lower (FileScript.yes args) stdin <> inr true -> run.1 <> Returned).
Proof.
  intros run. subst run. unfold FileScript.main.
  assert (Hnil : forall l : list request, l = l ++ []) by (intros; rewrite app_nil_r; reflexivity).
  destruct (Credentials.load_jmap_credentials_rw environ) as [e|[h t]];
    [split; [exists []; split; [constructor | left; apply Hnil]
            | split; [left; reflexivity | discriminate]]|].
  destruct (connect handshake _) as [e|c] eqn:Ec;
    [split; [exists []; split; [constructor | left; apply Hnil]
            | split; [left; reflexivity | discriminate]]|].
  pose proof (connect_connected _ _ _ Ec) as Hc.
  pose proof (get_email_info_sent serve c (FileScript.email_id args) w Hc) as H1.
  set (read := EmailGet [FileScript.email_id args] email_properties) in *.
  assert (R1 : Forall is_read [read]) by (repeat constructor).
  destruct (get_email_info serve c (FileScript.email_id args) w) as [[[m|k]|[info|]] w1];
    simpl in H1.
  1-2,4: split; [exists [read]; split; [exact R1 | left; exact H1]
                | split; [right; exists []; exact H1 | discriminate]].
  destruct (info_mailboxIds info) as [mids|];
    [|split; [exists [read]; split; [exact R1 | left; exact H1]
             | split; [right; exists []; exact H1 | discriminate]]].
  destruct (name_each_sent serve c (map_to_list mids).*1 w1 Hc) as [n H2].
  assert (R2 : Forall is_read (read :: replicate n MailboxGet))
    by (constructor; [exact I | apply Forall_replicate_read]).
  assert (E2 : sent (FileScript.name_each serve c (map_to_list mids).*1 w1).2
               = sent w ++ read :: replicate n MailboxGet)
    by (rewrite H2, H1, <- app_assoc; reflexivity).
  clear H2.
  destruct (FileScript.name_each serve c (map_to_list mids).*1 w1) as [[[m|k]|[]] w2];
    simpl in E2.
  1-2: split; [exists (read :: replicate n MailboxGet); split; [exact R2 | left; exact E2]
              | split; [right; eexists; exact E2 | discriminate]].
  pose proof (get_mailboxes_sent serve c w2 Hc) as H3.
  assert (R3 : Forall is_read ((read :: replicate n MailboxGet) ++ [MailboxGet]))
    by (apply Forall_app; split; [exact R2 | repeat constructor]).
  assert (E3 : sent (get_mailboxes serve c w2).2
               = sent w ++ (read :: replicate n MailboxGet) ++ [MailboxGet])
    by (rewrite H3, E2, <- app_assoc; reflexivity).
  clear H3.
  assert (Stop : forall (x : ending) (w3 : @world S),
            x <> Returned ->
            sent w3 = sent w ++ (read :: replicate n MailboxGet) ++ [MailboxGet] ->
            (exists pre, Forall is_read pre
               /\ (sent w3 = sent w ++ pre
                   \/ exists m, sent w3
                        = sent w ++ pre ++ [EmailSet_update (FileScript.email_id args) m]
                        /\ confirm lower (FileScript.yes args) stdin = inr true))
            /\ (sent w3 = sent w
                \/ exists rest, sent w3 = sent w ++ read :: rest)
            /\ (confirm lower (FileScript.yes args) stdin <> inr true -> x <> Returned)).
  { intros x w3 Hx E. split; [|split].
    - eexists. split; [exact R3 | left; exact E].
    - right. eexists. rewrite E. reflexivity.
    - intros _. exact Hx. }
  destruct (get_mailboxes serve c w2) as [[[m|k]|mbs] w3]; simpl in E3.
  1-2: apply Stop; [discriminate | exact E3].
  destruct (FileEmail.find_folder_in_para fuel mbs (FileScript.folder_name args)
              (FileScript.max_depth args)) as [[target|]|].
  2-3: apply Stop; [discriminate | exact E3].
  destruct (confirm lower (FileScript.yes args) stdin) as [x|[|]] eqn:Eq.
  1,3: apply Stop; [discriminate | exact E3].
  destruct (file_email_sends serve c (FileScript.email_id args) (id (folder target))
              (FileScript.copy args) w3 Hc) as (pre & Rp & Hs).
  rewrite <- (file_sent serve) in Hs.
  set (final := FileScript.file serve c (FileScript.email_id args)
                  (id (folder target)) (FileScript.copy args) w3) in *.
  split; [|split].
  - exists (((read :: replicate n MailboxGet) ++ [MailboxGet]) ++ pre).
    split; [apply Forall_app; split; assumption|].
    destruct Hs as [Hs|[m Hs]]; rewrite Hs, E3.
    + left. repeat (rewrite <- app_assoc || rewrite <- app_comm_cons). reflexivity.
    + right. exists m. split; [|reflexivity].
      repeat (rewrite <- app_assoc || rewrite <- app_comm_cons). reflexivity.
  - right. destruct Hs as [Hs|[m Hs]]; rewrite Hs, E3; eexists;
      repeat (rewrite <- app_assoc || rewrite <- app_comm_cons); reflexivity.
  - intros Hn. contradiction.
Qed.

Lemma name_each_store c ids s l :
  is_Some (client c) ->
  FileScript.name_each Store.serve c ids (World s l)
  = (inr (), World s (l ++ replicate (length ids) MailboxGet)).
Proof.
  intros [u Hu]. revert l. induction ids as [|i ids IH]; intros l; simpl.
  - rewrite app_nil_r. reflexivity.
  - unfold get_mailbox_name, get_mailboxes, send. rewrite Hu. simpl.
    rewrite IH, <- app_assoc. reflexivity.
Qed.

Lemma file_email_store c e z copy s em m l :
  is_Some (client c) ->
  Store.emails s !! e = Some em ->
  mailbox_ids em = Some m ->
  file_email Store.serve c e z copy (World s l)
  = (inr true,
     World {| Store.mailboxes := Store.mailboxes s;
              Store.emails :=
                <[ e := Store.set_mailbox_ids (filed_under copy z m) em ]> (Store.emails s);
              Store.next_id := Store.next_id s |}
           (l ++ (if copy then [EmailGet [e] email_properties] else [])
              ++ [EmailSet_update e (filed_under copy z m)])).
Proof.
  intros Hc He Hm. destruct copy; unfold filed_under.
  - destruct (get_email_info_store c e s em l Hc He) as (info & Hget & Hinfo).
    rewrite Hm in Hinfo.
    rewrite (file_email_copy_step Store.serve c e z _ info _ m Hc Hget Hinfo).
    rewrite (submit_store e _ s em _ He), <- app_assoc. reflexivity.
  - destruct Hc as [u Hu]. unfold file_email. rewrite Hu.
    rewrite (submit_store e _ s em _ He). reflexivity.
Qed.

(** X19: the filing script from end to end, on the mail store. When the
    credentials load, the session opens, the email exists, the resolver
    finds the folder and the run is confirmed, the script ends as on
    success and the email is left in the folder found alone (move) or in
    its former folders and the folder found (copy); the folders are as
    before. It sends the read of the email, one listing for each folder the
    email was in and one for the search, then what [file_email] sends. *)
Theorem X19_file_script_end_to_end (lower : string -> string)
    (handshake : string -> string -> option string) (fuel : nat)
    (args : FileScript.args) (environ : gmap string string) (stdin : list string)
    (s : Store.store) (h t : string) (em : email) (m : gmap string bool)
    (target : found)
    (Hcred : Credentials.load_jmap_credentials_rw environ = inr (h, t))
    (Hopen : handshake h t = None)
    (He : Store.emails s !! FileScript.email_id args = Some em)
    (Hm : mailbox_ids em = Some m)
    (Hf : FileEmail.find_folder_in_para fuel (Store.mailboxes s)
            (FileScript.folder_name args) (FileScript.max_depth args)
          = Done (Some target))
    (Hyes : confirm lower (FileScript.yes args) stdin = inr true) :
  let e := FileScript.email_id args in
  let after := filed_under (FileScript.copy args) (id (folder target)) m in
  exists s',
    FileScript.main Store.serve lower handshake fuel args environ stdin (World s [])
    = (Returned,
       World s' (EmailGet [e] email_properties
                 :: replicate (size m) MailboxGet ++ [MailboxGet]
                 ++ (if FileScript.copy args then [EmailGet [e] email_properties] else [])
                 ++ [EmailSet_update e after]))
    /\ mailbox_ids <$> (Store.emails s' !! e) = Some (Some after)
    /\ Store.mailboxes s' = Store.mailboxes s
    /\ (forall e', e' <> e -> Store.emails s' !! e' = Store.emails s !! e').
Proof.
  intros e after. subst e after.
  set (c := {| host := h; api_token := t; client := Some () |}).
  assert (Hc : is_Some (client c)) by (exists (); reflexivity).
  unfold FileScript.main. rewrite Hcred. unfold connect. simpl. rewrite Hopen.
  fold c.
  destruct (get_email_info_store c (FileScript.email_id args) s em [] Hc He)
    as (info & Hget & Hinfo).
  rewrite Hget, Hinfo, Hm.
  rewrite (name_each_store c _ s _ Hc).
  unfold get_mailboxes, send. simpl. rewrite Hf, Hyes.
  unfold FileScript.file.
  rewrite (file_email_store c _ (id (folder target)) (FileScript.copy args) s em m _ Hc He Hm).
  rewrite length_fmap, length_map_to_list.
  eexists. split; [|split; [|split]].
  - f_equal. f_equal. simpl. rewrite <- !app_assoc. reflexivity.
  - simpl. rewrite lookup_insert_eq. reflexivity.
  - reflexivity.
  - intros e' Hne. simpl. apply lookup_insert_ne. congruence.
Qed.

(** A move, on an email that is in two folders. *)
Lemma X19_witness :
  exists s',
    (FileScript.main Store.serve str_lower (fun _ _ => None) 5
       (FileScript.Args "email_123" "Team Management" false true None)
       {[ "JMAP_HOST" := "api.example.com"; "JMAP_API_TOKEN_RW" := "readwrite_token_456" ]} []
       (World {| Store.mailboxes := sample_mailboxes;
                 Store.emails := {[ "email_123" :=
                    email_in "email_123" {[ "mb_inbox" := true; "mb_sent" := true ]} ]};
                 Store.next_id := 0 |} [])).1 = Returned
    /\ mailbox_ids <$> (Store.emails s' !! "email_123")
       = Some (Some {[ "mb_area_1" := true ]}).
Proof.
  assert (Hcred : Credentials.load_jmap_credentials_rw
            {[ "JMAP_HOST" := "api.example.com";
               "JMAP_API_TOKEN_RW" := "readwrite_token_456" ]}
          = inr ("api.example.com", "readwrite_token_456")) by (vm_compute; reflexivity).
  assert (Hf : FileEmail.find_folder_in_para 5 sample_mailboxes "Team Management" None
          = Done (Some sample_area)) by (vm_compute; reflexivity).
  destruct (X19_file_script_end_to_end str_lower (fun _ _ => None) 5
              (FileScript.Args "email_123" "Team Management" false true None)
              {[ "JMAP_HOST" := "api.example.com";
                 "JMAP_API_TOKEN_RW" := "readwrite_token_456" ]} []
              {| Store.mailboxes := sample_mailboxes;
                 Store.emails := {[ "email_123" :=
                    email_in "email_123" {[ "mb_inbox" := true; "mb_sent" := true ]} ]};
                 Store.next_id := 0 |}
              "api.example.com" "readwrite_token_456"
              (email_in "email_123" {[ "mb_inbox" := true; "mb_sent" := true ]})
              {[ "mb_inbox" := true; "mb_sent" := true ]}
              sample_area
              Hcred eq_refl (lookup_singleton_eq _ _) eq_refl Hf eq_refl)
    as (s' & Hrun & Hids & _).
  exists s'. split; [rewrite Hrun; reflexivity | exact Hids].
Defined.

Lemma find_para_parents_snoc mbs mb :
  name mb ∉ para_names ->
  find_para_parents (mbs ++ [mb]) = find_para_parents mbs.
Proof.
  intros Hn. rewrite !find_para_parents_fold, fold_left_app.
  cbn [fold_left]. generalize (fold_note_keys mbs para_parents_init).
  generalize (fold_left note_parent mbs para_parents_init). intros d Hd.
  unfold note_parent. destruct (odict_mem (name mb) d) eqn:E; [|reflexivity].
  apply odict_mem_keys in E. rewrite Hd in E. contradiction.
Qed.

Lemma scan_children_snoc fname pn pid l mb :
  ArchiveFolder.scan_children fname pn pid l = None ->
  ArchiveFolder.scan_children fname pn pid (l ++ [mb])
  = ArchiveFolder.scan_children fname pn pid [mb].
Proof.
  induction l as [|x l IH]; [reflexivity|]. cbn [ArchiveFolder.scan_children app].
  destruct (bool_decide (parentId x = Some pid) && String.eqb (name x) fname);
    [discriminate | exact IH].
Qed.

Lemma scan_parents_snoc mbs fname items mb p :
  parentId mb = Some p -> name mb = fname ->
  (forall pn pid, (pn, Some pid) ∈ items ->
     ArchiveFolder.scan_children fname pn pid mbs = None) ->
  (exists pn, (pn, Some p) ∈ items) ->
  exists pn, ArchiveFolder.scan_parents (mbs ++ [mb]) fname items
             = Some (Found mb pn (Some p)).
Proof.
  intros Hp Hn. induction items as [|[pn [pid|]] items IH]; intros Hnone [pn0 Hin].
  - inversion Hin.
  - cbn [ArchiveFolder.scan_parents].
    rewrite scan_children_snoc by (apply Hnone; left).
    cbn [ArchiveFolder.scan_children]. rewrite Hp, Hn, String.eqb_refl.
    case_bool_decide as Hd; cbn [andb].
    + injection Hd as ->. exists pn. reflexivity.
    + apply IH.
      * intros pn' pid' Hin'. apply Hnone. right. exact Hin'.
      * exists pn0. inversion Hin; subst; [congruence | assumption].
  - cbn [ArchiveFolder.scan_parents]. apply IH.
    + intros pn' pid' Hin'. apply Hnone. right. exact Hin'.
    + exists pn0. inversion Hin; subst. assumption.
Qed.

(** X20: the creation script followed by the one-level resolver, on the
    mail store. When the credentials load and the session opens, the PARA
    parent that [get_mailbox_by_name] finds is the one the resolver keeps
    under that name, the new name is not a PARA name and the resolver did not
    find it before, the script ends as on success having sent one listing
    and one creation under that parent, and the resolver then returns the
    folder created: the last of the list, with the new id, under that
    parent. *)
Theorem X20_created_folder_is_found (lower : string -> string)
    (handshake : string -> string -> option string)
    (args : CreateScript.args) (environ : gmap string string)
    (s : Store.store) (h t : string) (p : mailbox)
    (Hcred : Credentials.load_jmap_credentials_rw environ = inr (h, t))
    (Hopen : handshake h t = None)
    (Hparent : first_named lower (lower (CreateScript.parent args)) (Store.mailboxes s)
               = Some p)
    (Hagree : odict_get (CreateScript.parent args) (find_para_parents (Store.mailboxes s))
              = Some (Some (id p)))
    (Hname : CreateScript.name args ∉ para_names)
    (Hnew : ArchiveFolder.find_folder_in_para (Store.mailboxes s) (CreateScript.name args)
            = None) :
  let created :=
    Mailbox ("M" +:+ pretty (Store.next_id s)) (CreateScript.name args) None 0
            (Some (id p)) 0 0 0 0 in
  exists s',
    CreateScript.main Store.serve lower handshake args environ (World s [])
    = (Returned,
       World s' [MailboxGet; MailboxSet_create (CreateScript.name args) (id p)])
    /\ Store.mailboxes s' = Store.mailboxes s ++ [created]
    /\ Store.emails s' = Store.emails s
    /\ exists pn, ArchiveFolder.find_folder_in_para (Store.mailboxes s')
                    (CreateScript.name args)
                  = Some (Found created pn (Some (id p))).
Proof.
  intros created.
  set (c := {| host := h; api_token := t; client := Some () |}).
  assert (Hc : is_Some (client c)) by (exists (); reflexivity).
  unfold CreateScript.main. rewrite Hcred. unfold connect. simpl. rewrite Hopen.
  fold c. unfold get_mailbox_by_name, get_mailboxes, send. simpl.
  rewrite Hparent. rewrite (create_folder_store c _ _ s _ Hc).
  eexists. split; [reflexivity|]. split; [reflexivity|]. split; [reflexivity|].
  cbn [Store.mailboxes]. fold created.
  unfold ArchiveFolder.find_folder_in_para.
  rewrite find_para_parents_snoc by exact Hname.
  apply scan_parents_snoc; [reflexivity | reflexivity | |].
  - apply archive_parents_none. exact Hnew.
  - exists (CreateScript.parent args). apply odict_get_elem. exact Hagree.
Qed.

(** A new project in the sample account. *)
Lemma X20_witness :
  exists s' pn,
    (CreateScript.main Store.serve str_lower (fun _ _ => None)
       (CreateScript.Args "100_projects" "2025-Q2_launch")
       {[ "JMAP_HOST" := "api.example.com"; "JMAP_API_TOKEN_RW" := "readwrite_token_456" ]}
       (World {| Store.mailboxes := sample_mailboxes; Store.emails := ∅;
                 Store.next_id := 0 |} [])).2
    = World s' [MailboxGet; MailboxSet_create "2025-Q2_launch" "mb_100_projects"]
    /\ ArchiveFolder.find_folder_in_para (Store.mailboxes s') "2025-Q2_launch"
       = Some (Found (Mailbox "M0" "2025-Q2_launch" None 0 (Some "mb_100_projects") 0 0 0 0)
                     pn (Some "mb_100_projects")).
Proof.
  assert (Hcred : Credentials.load_jmap_credentials_rw
            {[ "JMAP_HOST" := "api.example.com";
               "JMAP_API_TOKEN_RW" := "readwrite_token_456" ]}
          = inr ("api.example.com", "readwrite_token_456")) by (vm_compute; reflexivity).
  assert (Hname : "2025-Q2_launch" ∉ para_names).
  { unfold para_names. rewrite !elem_of_cons, elem_of_nil. intuition discriminate. }
  destruct (X20_created_folder_is_found str_lower (fun _ _ => None)
              (CreateScript.Args "100_projects" "2025-Q2_launch")
              {[ "JMAP_HOST" := "api.example.com";
                 "JMAP_API_TOKEN_RW" := "readwrite_token_456" ]}
              {| Store.mailboxes := sample_mailboxes; Store.emails := ∅;
                 Store.next_id := 0 |}
              "api.example.com" "readwrite_token_456"
              (Mailbox "mb_100_projects" "100_projects" None 100 None 0 0 0 0)
              Hcred eq_refl eq_refl eq_refl Hname eq_refl)
    as (s' & Hrun & _ & _ & pn & Hfind).
  exists s', pn. split; [rewrite Hrun; reflexivity | exact Hfind].
Defined.

(** ** The listing of the folders *)

Lemma insert_by_sortOrder_perm mb l :
  ListFolders.insert_by_sortOrder mb l ≡ₚ mb :: l.
Proof.
  induction l as [|x l IH]; simpl; [reflexivity|].
  destruct (sortOrder mb <=? sortOrder x); [reflexivity|].
  rewrite IH. apply Permutation_swap.
Qed.

Lemma sorted_by_sortOrder_perm l : ListFolders.sorted_by_sortOrder l ≡ₚ l.
Proof.
  induction l as [|x l IH]; simpl; [reflexivity|].
  rewrite insert_by_sortOrder_perm, IH. reflexivity.
Qed.

Lemma insert_by_sortOrder_sorted mb l :
  StronglySorted (fun a b => sortOrder a <= sortOrder b) l ->
  StronglySorted (fun a b => sortOrder a <= sortOrder b)
                 (ListFolders.insert_by_sortOrder mb l).
Proof.
  induction 1 as [|x l Hl IH Hx]; simpl.
  - repeat constructor.
  - destruct (Z.leb_spec (sortOrder mb) (sortOrder x)) as [Hle|Hlt].
    + constructor; [constructor; assumption|].
      constructor; [exact Hle|].
      rewrite Forall_forall in Hx |- *. intros y Hy. specialize (Hx y Hy). lia.
    + constructor; [exact IH|].
      rewrite Forall_forall in Hx |- *. intros y Hy.
      apply (elem_of_Permutation_proper _ _ _ (insert_by_sortOrder_perm mb l)) in Hy.
      apply elem_of_cons in Hy as [->|Hy]; [lia | apply Hx, Hy].
Qed.

Lemma sorted_by_sortOrder_sorted l :
  StronglySorted (fun a b => sortOrder a <= sortOrder b)
                 (ListFolders.sorted_by_sortOrder l).
Proof.
  induction l as [|x l IH]; simpl; [constructor|].
  apply insert_by_sortOrder_sorted, IH.
Qed.

(** The sort is stable: the folders of one [sortOrder] keep their order. *)
Lemma insert_by_sortOrder_stable k mb l :
  filter (fun x => sortOrder x = k) (ListFolders.insert_by_sortOrder mb l)
  = filter (fun x => sortOrder x = k) (mb :: l).
Proof.
  induction l as [|x l IH]; simpl; [reflexivity|].
  destruct (Z.leb_spec (sortOrder mb) (sortOrder x)) as [Hle|Hlt]; [reflexivity|].
  rewrite (filter_cons _ x), IH, !filter_cons.
  destruct (decide (sortOrder x = k)) as [Hx|Hx];
    destruct (decide (sortOrder mb = k)) as [Hm|Hm]; try reflexivity.
  lia.
Qed.

Lemma sorted_by_sortOrder_stable k l :
  filter (fun x => sortOrder x = k) (ListFolders.sorted_by_sortOrder l)
  = filter (fun x => sortOrder x = k) l.
Proof.
  induction l as [|x l IH]; simpl; [reflexivity|].
  rewrite insert_by_sortOrder_stable, !filter_cons, IH. reflexivity.
Qed.

Lemma for_each_returns body l :
  (forall x, x ∈ l -> exists out, body x = Done out) ->
  exists out, ListFolders.for_each body l = Done out.
Proof.
  induction l as [|x l IH]; intros H; simpl; [eauto|].
  destruct (H x) as [out ->]; [left|].
  destruct IH as [out' ->]; [intros y Hy; apply H; right; exact Hy|].
  eauto.
Qed.

Lemma for_each_diverges body l x :
  x ∈ l -> body x = Diverge -> ListFolders.for_each body l = Diverge.
Proof.
  intros Hx Hb. induction l as [|y l IH]; [inversion Hx|]. simpl.
  apply elem_of_cons in Hx as [<-|Hx].
  - rewrite Hb. reflexivity.
  - rewrite (IH Hx). destruct (body y); reflexivity.
Qed.

Lemma for_each_concat body (lines : mailbox -> list string) l :
  (forall x, x ∈ l -> body x = Done (lines x)) ->
  ListFolders.for_each body l = Done (concat (map lines l)).
Proof.
  induction l as [|x l IH]; intros H; simpl; [reflexivity|].
  rewrite (H x) by left. rewrite IH; [reflexivity|].
  intros y Hy. apply H. right. exact Hy.
Qed.

(** Under a limit the nesting of the calls is bounded by the levels left. *)
Lemma display_folder_returns fuel mb children_map depth d current_depth :
  (Z.to_nat (d - Z.of_nat current_depth) < fuel)%nat ->
  exists out,
    ListFolders.display_folder fuel mb children_map depth (Some d) current_depth
    = Done out.
Proof.
  revert mb depth current_depth.
  induction fuel as [|fuel IH]; intros mb depth cur Hfuel; [lia|].
  cbn [ListFolders.display_folder]. unfold ListFolders.at_limit.
  destruct (Z.leb_spec d (Z.of_nat cur)) as [Hle|Hlt]; [eauto|].
  destruct (for_each_returns
              (fun child => ListFolders.display_folder fuel child children_map
                              (Datatypes.S depth) (Some d) (Datatypes.S cur))
              (ListFolders.sorted_by_sortOrder (default [] (children_map !! id mb))))
    as [below ->]; [|eauto].
  intros x _. apply IH. lia.
Qed.

Lemma first_named_in lower n l mb : first_named lower n l = Some mb -> mb ∈ l.
Proof.
  induction l as [|x l IH]; simpl; [discriminate|].
  destruct (String.eqb (lower (name x)) n).
  - intros [= ->]. left.
  - intros H. right. apply IH, H.
Qed.

Lemma tree_lookup mbs k :
  default [] (ListFolders.build_folder_tree mbs !! k)
  = filter (fun mb => ListFolders.tree_key mb = k) mbs.
Proof.
  unfold ListFolders.build_folder_tree. rewrite fold_add_child_lookup, lookup_empty.
  destruct (filter _ mbs); reflexivity.
Qed.

Lemma sorted_children_in mbs k x :
  x ∈ ListFolders.sorted_by_sortOrder (default [] (ListFolders.build_folder_tree mbs !! k)) ->
  x ∈ mbs /\ ListFolders.tree_key x = k.
Proof.
  intros Hx. rewrite sorted_by_sortOrder_perm, tree_lookup in Hx. apply list_elem_of_filter in Hx as [Hk Hin].
  split; assumption.
Qed.

Lemma display_folders_cases fuel lower mbs start max_depth :
  (forall mb, mb ∈ mbs -> exists out,
     ListFolders.display_folder fuel mb (ListFolders.build_folder_tree mbs) 0 max_depth 0
     = Done out) ->
  exists out, ListFolders.display_folders fuel lower mbs start max_depth = Done out.
Proof.
  intros H. unfold ListFolders.display_folders.
  destruct mbs as [|mb0 mbs']; [eauto|].
  set (mbs := mb0 :: mbs') in *.
  assert (Hroots : exists out,
    match ListFolders.for_each
            (fun mb => ListFolders.display_folder fuel mb
                         (ListFolders.build_folder_tree mbs) 0 max_depth 0)
            (ListFolders.sorted_by_sortOrder
               (default [] (ListFolders.build_folder_tree mbs !! "root"))) with
    | Diverge => Diverge
    | Done out =>
        Done ([ListFolders.rule; "Folder Hierarchy";
               "Found " +:+ pretty (length mbs) +:+ " folder(s)"]
              ++ ListFolders.depth_line max_depth
              ++ [ListFolders.rule +:+ ListFolders.newline] ++ out)
    end = Done out).
  { destruct (for_each_returns
                (fun mb => ListFolders.display_folder fuel mb
                             (ListFolders.build_folder_tree mbs) 0 max_depth 0)
                (ListFolders.sorted_by_sortOrder
                   (default [] (ListFolders.build_folder_tree mbs !! "root"))))
      as [out ->]; [intros x Hx; apply H, (sorted_children_in _ _ _ Hx) | eauto]. }
  destruct start as [start|]; [|exact Hroots].
  destruct (String.eqb start ""); [exact Hroots|].
  destruct (first_named lower (lower start) mbs) as [sm|] eqn:Hsm; [|eauto].
  destruct (H sm (first_named_in _ _ _ _ Hsm)) as [out ->]. eauto.
Qed.

(** X21: with a depth limit the listing returns on every folder list,
    whatever the parent links are (cycles included): a nesting of the calls
    one deeper than the limit is enough. At or beyond the limit
    [display_folder] prints nothing, so a limit of zero or less shows no
    folder at all. *)
Theorem X21_listing_returns_under_a_limit (lower : string -> string)
    (mbs : list mailbox) (start : option string) (d : Z) :
  (exists out,
     ListFolders.display_folders (Datatypes.S (Z.to_nat d)) lower mbs start (Some d)
     = Done out)
  /\ (forall fuel mb children_map depth current_depth,
        d <= Z.of_nat current_depth ->
        ListFolders.display_folder (Datatypes.S fuel) mb children_map depth (Some d)
                                   current_depth
        = Done []).
Proof.
  split.
  - apply display_folders_cases. intros mb _. apply display_folder_returns.
    simpl. rewrite Z.sub_0_r. lia.
  - intros fuel mb cm depth cur Hle. cbn [ListFolders.display_folder].
    unfold ListFolders.at_limit. rewrite (proj2 (Z.leb_le _ _) Hle). reflexivity.
Qed.

(** X22: the listing has no cycle detection. A folder that is listed among
    its own children (it names itself as parent, or its id is the string
    "root" and it has no parent) is never displayed to the end when there is
    no depth limit: whatever the nesting allowed, [display_folder] does not
    return. *)
Theorem X22_listing_of_a_self_child (mbs : list mailbox) (mb : mailbox)
    (depth current_depth : nat)
    (Hin : mb ∈ mbs)
    (Hself : ListFolders.tree_key mb = id mb) :
  forall fuel,
    ListFolders.display_folder fuel mb (ListFolders.build_folder_tree mbs) depth None
                               current_depth
    = Diverge.
Proof.
  intros fuel. revert depth current_depth.
  induction fuel as [|fuel IH]; intros depth cur; [reflexivity|].
  cbn [ListFolders.display_folder ListFolders.at_limit].
  rewrite (for_each_diverges _ _ mb); [reflexivity | | apply IH].
  apply (elem_of_Permutation_proper _ _ _ (sorted_by_sortOrder_perm _)).
  rewrite tree_lookup. apply list_elem_of_filter. split; assumption.
Qed.

(** A folder that is its own parent, and one whose id is "root". *)
Lemma X22_witness :
  ListFolders.display_folder 7 (mk "a" "Loop" (Some "a"))
    (ListFolders.build_folder_tree [mk "a" "Loop" (Some "a")]) 0 None 0 = Diverge
  /\ ListFolders.display_folder 7 (mk "root" "Top" None)
       (ListFolders.build_folder_tree [mk "root" "Top" None; mk "b" "B" None]) 0 None 0
     = Diverge.
Proof.
  split.
  - apply (X22_listing_of_a_self_child [mk "a" "Loop" (Some "a")]
             (mk "a" "Loop" (Some "a")) 0 0); [left | reflexivity].
  - apply (X22_listing_of_a_self_child [mk "root" "Top" None; mk "b" "B" None]
             (mk "root" "Top" None) 0 0); [left | reflexivity].
Defined.

(** X23: the listing from the roots with a depth limit of one. It prints the
    heading and then, for each folder whose parent id is missing, empty or
    "root", the lines of that folder with no indentation and nothing of its
    children: each such folder once, in ascending [sortOrder], those of equal
    [sortOrder] in the order of the list. *)
Theorem X23_top_level_listing (lower : string -> string) (mbs : list mailbox)
    (fuel : nat) (Hne : mbs <> []) :
  let roots := filter (fun mb => ListFolders.tree_key mb = "root") mbs in
  exists shown,
    ListFolders.display_folders (Datatypes.S (Datatypes.S fuel)) lower mbs None (Some 1)
    = Done ([ListFolders.rule; "Folder Hierarchy";
             "Found " +:+ pretty (length mbs) +:+ " folder(s)";
             "Maximum depth: 1";
             ListFolders.rule +:+ ListFolders.newline]
            ++ concat (map (ListFolders.folder_lines 0) shown))
    /\ shown ≡ₚ roots
    /\ StronglySorted (fun a b => sortOrder a <= sortOrder b) shown
    /\ (forall k, filter (fun mb => sortOrder mb = k) shown
                  = filter (fun mb => sortOrder mb = k) roots).
Proof.
  intros roots. exists (ListFolders.sorted_by_sortOrder roots).
  split; [|split; [apply sorted_by_sortOrder_perm|split;
    [apply sorted_by_sortOrder_sorted | intros k; apply sorted_by_sortOrder_stable]]].
  unfold ListFolders.display_folders.
  destruct mbs as [|mb0 mbs']; [contradiction|].
  rewrite tree_lookup. fold roots.
  rewrite (for_each_concat _ (ListFolders.folder_lines 0)); [reflexivity|].
  intros x _. cbn [ListFolders.display_folder ListFolders.at_limit].
  change (1 <=? Z.of_nat 0) with false. cbv iota.
  rewrite (for_each_concat _ (fun _ => [])); [|intros y _; reflexivity].
  f_equal. generalize (ListFolders.sorted_by_sortOrder
                         (default [] (ListFolders.build_folder_tree (mb0 :: mbs') !! id x))).
  intros l. induction l as [|y l IH]; [apply app_nil_r | exact IH].
Qed.

(** The sample account, top level only. *)
Lemma X23_witness :
  exists shown,
    ListFolders.display_folders 2 str_lower sample_mailboxes None (Some 1)
    = Done ([ListFolders.rule; "Folder Hierarchy"; "Found 8 folder(s)";
             "Maximum depth: 1"; ListFolders.rule +:+ ListFolders.newline]
            ++ concat (map (ListFolders.folder_lines 0) shown))
    /\ StronglySorted (fun a b => sortOrder a <= sortOrder b) shown.
Proof.
  assert (Hne : sample_mailboxes <> []) by discriminate.
  destruct (X23_top_level_listing str_lower sample_mailboxes 0 Hne)
    as (shown & Hout & _ & Hsorted & _).
  exists shown. split; [exact Hout | exact Hsorted].
Defined.

(** Without a limit the nesting of the calls is bounded by the rank. *)
Lemma display_folder_ranked (rank : mailbox -> nat) mbs fuel mb depth current_depth :
  (forall p c, p ∈ mbs -> c ∈ mbs -> ListFolders.tree_key c = id p ->
     (rank c < rank p)%nat) ->
  mb ∈ mbs -> (rank mb < fuel)%nat ->
  exists out,
    ListFolders.display_folder fuel mb (ListFolders.build_folder_tree mbs) depth None
                               current_depth
    = Done out.
Proof.
  intros Hrank. revert mb depth current_depth.
  induction fuel as [|fuel IH]; intros mb depth cur Hmb Hfuel; [lia|].
  cbn [ListFolders.display_folder ListFolders.at_limit].
  destruct (for_each_returns
              (fun child => ListFolders.display_folder fuel child
                              (ListFolders.build_folder_tree mbs)
                              (Datatypes.S depth) None (Datatypes.S cur))
              (ListFolders.sorted_by_sortOrder
                 (default [] (ListFolders.build_folder_tree mbs !! id mb))))
    as [below ->]; [|eauto].
  intros x Hx. apply sorted_children_in in Hx as [Hin Hk].
  apply IH; [exact Hin|]. specialize (Hrank mb x Hmb Hin Hk). lia.
Qed.

(** X24: without a depth limit the listing returns on every folder list
    whose parent links are well founded: when a rank decreases from each
    folder to the folders grouped under its id, a nesting of the calls
    deeper than every rank is enough. *)
Theorem X24_listing_returns_on_a_tree (lower : string -> string)
    (mbs : list mailbox) (start : option string) (rank : mailbox -> nat) (fuel : nat)
    (Hrank : forall p c, p ∈ mbs -> c ∈ mbs -> ListFolders.tree_key c = id p ->
               (rank c < rank p)%nat)
    (Hfuel : forall mb, mb ∈ mbs -> (rank mb < fuel)%nat) :
  exists out, ListFolders.display_folders fuel lower mbs start None = Done out.
Proof.
  apply display_folders_cases. intros mb Hmb.
  apply (display_folder_ranked rank); [exact Hrank | exact Hmb | apply Hfuel, Hmb].
Qed.

(** A project folder under its PARA root. *)
Lemma X24_witness :
  exists out,
    ListFolders.display_folders 2 str_lower
      [mk "r" "100_projects" None; mk "c" "2025-Q1_site" (Some "r")] None None
    = Done out.
Proof.
  apply (X24_listing_returns_on_a_tree str_lower
           [mk "r" "100_projects" None; mk "c" "2025-Q1_site" (Some "r")] None
           (fun mb => match parentId mb with None => 1%nat | Some _ => 0%nat end) 2).
  - intros p c Hp Hc.
    apply elem_of_cons in Hp as [->|Hp]; [|apply list_elem_of_singleton in Hp as ->];
      (apply elem_of_cons in Hc as [->|Hc]; [|apply list_elem_of_singleton in Hc as ->]);
      simpl; intros Hk; try discriminate; lia.
  - intros mb Hmb.
    apply elem_of_cons in Hmb as [->|Hmb]; [|apply list_elem_of_singleton in Hmb as ->];
      simpl; lia.
Defined.
